(** * Flow builder and flow simulator of the SUPER admin console

    A shallow embedding of the two React components that hold the flow graph
    logic of the repository:

    - [FlowBuilder.tsx]: the editor state (nodes, edges, undo history, flow
      properties) and its handlers;
    - [FlowSimulator.tsx]: the simulation controller (execution steps, current
      step index, play / pause / stop / jump) and [simulateNodeExecution].

    A React handler is a function of the state its render captured; it queues
    updates, and the next render sees all of them applied. A handler is
    therefore a function from the state of the render it was created in to
    the state of the next render. What a handler reads from its closure is
    read from the argument; what it passes as an updater ([prev => ...]) is
    applied to the same argument, since every handler below runs in a render
    that has no other update pending. Callbacks that fire later (the timeout
    started by [executeNextStep]) keep the values they captured in an explicit
    record.

    [Math.random()] and [Date.now()] are reads of a world that is threaded
    through the handlers that use them; numbers are the rationals that
    doubles denote, and arithmetic rounds to the nearest double.

    The simulator is embedded twice. In [Sim] the graph and the steps are
    values, which is what the facts about runs need. In [Mem] the same
    handlers run on a heap of objects and arrays that they share with the
    builder, which is what the question of what a handler writes to needs. *)

From Stdlib Require Import QArith Qround Qpower Lqa Floats Ascii DecimalString.
From stdpp Require Import base list strings pretty.

Open Scope Z_scope.

(** ** JavaScript values and the ambient world *)

Module Js.

(** The values stored in node data and step outputs. [JRandomId p r] is the
    string [p + r.toString(36).substr(2, 9)] for a draw [r] of
    [Math.random()], and [JIsoTime t] is [new Date(t).toISOString()]: their
    characters are not modelled, only what they are computed from. *)
#[local] Unset Elimination Schemes.
Inductive JsValue : Type :=
| JUndefined
| JNull
| JBool (b : bool)
| JNum (q : Q)
| JStr (s : string)
| JRandomId (prefix : string) (r : Q)
| JIsoTime (t : Z)
| JArr (items : list JsValue)
| JObj (fields : list (string * JsValue)).
#[local] Set Elimination Schemes.

(** [o[k]] on an object literal; anything that is not an object, and a
    missing key, read as [undefined]. *)
Definition get (k : string) (v : JsValue) : JsValue :=
  match v with
  | JObj fields =>
      match list_find (λ kv, kv.1 = k) fields with
      | Some (_, (_, x)) => x
      | None => JUndefined
      end
  | _ => JUndefined
  end.

(** [a || b] on optional strings: [undefined] and the empty string are
    falsy. *)
Definition or_else (a : option string) (b : option string) : option string :=
  match a with
  | Some s => if decide (s = "") then b else Some s
  | None => b
  end.

(** The world read by [Math.random()] and [Date.now()]: the values the two
    calls will return, and how many calls were made so far. *)
Record World : Type := mkWorld {
  random_src : nat → Q;
  random_calls : nat;
  clock_src : nat → Z;
  clock_calls : nat;
}.

(** Computations that read the world. *)
Definition M (A : Type) : Type := World → A * World.

Definition ret {A} (a : A) : M A := λ w, (a, w).

Definition bind {A B} (m : M A) (k : A → M B) : M B :=
  λ w, let (a, w') := m w in k a w'.

(** [Math.random()]: the next draw, in [0, 1). *)
Definition Math_random : M Q :=
  λ w, (random_src w (random_calls w),
        mkWorld (random_src w) (S (random_calls w)) (clock_src w) (clock_calls w)).

(** [Date.now()] (and the clock read of [new Date()]). *)
Definition Date_now : M Z :=
  λ w, (clock_src w (clock_calls w),
        mkWorld (random_src w) (random_calls w) (clock_src w) (S (clock_calls w))).

(** What a handler did: returned, or threw before any update was queued. *)
Inductive Outcome (A : Type) : Type :=
| Done (a : A)
| Threw (e : string).
Arguments Done {A} a.
Arguments Threw {A} e.

(** A handler that threw leaves the state of its render in place. *)
Definition settle {A} (before : A) (o : Outcome A) : A :=
  match o with
  | Done after => after
  | Threw _ => before
  end.

(** [x > y] on numbers. *)
Definition gt (x y : Q) : bool := negb (Qle_bool x y).

(** Whether a value is truthy: [undefined], [null], [false], [0] and the
    empty string are not. A random id is the empty string when its prefix is
    empty and the draw was 0. *)
Definition truthy (v : JsValue) : bool :=
  match v with
  | JUndefined | JNull => false
  | JBool b => b
  | JNum q => negb (Qeq_bool q 0)
  | JStr s => negb (bool_decide (s = ""))
  | JRandomId prefix r => negb (bool_decide (prefix = "")) || negb (Qeq_bool r 0)
  | JIsoTime _ | JArr _ | JObj _ => true
  end.

(** *** Numbers are IEEE 754 doubles

    A number is modelled by the rational it denotes. An arithmetic
    operation of the code returns the double nearest to the exact result,
    ties to even; [double] is that rounding (overflow to infinity, which no
    operation of this file can reach, is left out). *)

(** [2^e] *)
Definition pow2 (e : Z) : Q :=
  if 0 <=? e then inject_Z (2 ^ e) else Qmake 1 (Z.to_pos (2 ^ (- e))).

(** The [e] with [2^e ≤ x < 2^(e+1)], for a positive [x]. *)
Definition binade (x : Q) : Z :=
  let d := Z.log2 (Qnum x) - Z.log2 (Z.pos (Qden x)) in
  if Qle_bool (pow2 d) x then d else d - 1.

(** The integer nearest to [y], the even one of the two when [y] is half way. *)
Definition round_half_even (y : Q) : Z :=
  let f := Qfloor y in
  match (y - inject_Z f ?= 1 # 2)%Q with
  | Lt => f
  | Gt => f + 1
  | Eq => if Z.even f then f else f + 1
  end.

(** The double nearest to a positive [x]: a multiple of the unit in the last
    place of its binade (53 bits of precision, smallest exponent -1074). *)
Definition nearest (x : Q) : Q :=
  let ulp := pow2 (Z.max (binade x - 52) (-1074)) in
  (inject_Z (round_half_even (x / ulp)) * ulp)%Q.

Definition double (x : Q) : Q :=
  match Qnum x with
  | 0 => 0%Q
  | Z.pos _ => nearest x
  | Z.neg _ => (- nearest (- x))%Q
  end.

(** [x * y] on numbers. *)
Definition times (x y : Q) : Q := double (x * y).

(** [Math.floor(r * k) + c], for integers [k] and [c] small enough for the
    sum to be exact. *)
Definition floor_scaled (r : Q) (k c : Z) : Z := Qfloor (times r (inject_Z k)) + c.

(** The rational that a machine double denotes, and the double of a small
    natural number: they are used to check [double] against the rounding of
    the machine. *)
Definition of_float (f : float) : option Q :=
  match Prim2SF f with
  | S754_zero _ => Some 0%Q
  | S754_finite sign m e =>
      Some ((if sign then -1 else 1) * (inject_Z (Z.pos m) * pow2 e))%Q
  | _ => None
  end.

Definition float_of (n : Z) : float := PrimFloat.of_uint63 (Uint63.of_Z n).

Definition denotes (f : float) (q : Q) : bool :=
  match of_float f with
  | Some x => Qeq_bool q x
  | None => false
  end.

(** Two worlds agree when every call of [Math.random()] and of [Date.now()]
    still to come returns the same value in both. *)
Definition agree (w w' : World) : Prop :=
  (∀ k : nat, random_src w (random_calls w + k) = random_src w' (random_calls w' + k))
  ∧ (∀ k : nat, clock_src w (clock_calls w + k) = clock_src w' (clock_calls w' + k)).

(** A computation respects agreement when, run in two worlds that agree, it
    returns the same value and leaves worlds that agree. *)
Definition respects {A} (m : M A) : Prop :=
  ∀ w w', agree w w' → (m w).1 = (m w').1 ∧ agree (m w).2 (m w').2.

End Js.

Notation "'run' x ':=' m 'in' k" := (Js.bind m (λ x, k))
  (at level 10, x name, m at level 100, k at level 200, only parsing).

Import Js.

(** ** The flow graph (reactflow's [Node] and [Edge]) *)

Record Node : Type := mkNode {
  node_id : string;
  node_type : option string;
  node_position : Q * Q;
  node_data : JsValue;
}.

Record Edge : Type := mkEdge {
  edge_id : string;
  edge_source : string;
  edge_target : string;
  edge_sourceHandle : option string;
}.

(** [node.data?.label]: [undefined] when the data is not an object or has
    no label. *)
Definition data_label (n : Node) : JsValue := get "label" (node_data n).

(** ** FlowSimulator.tsx *)

Module Sim.

Inductive StepStatus : Type := pending | running | completed | failed | skipped.

(** A log line. [LogNumber p n] is the template literal [`p${n}`] for a
    number [n], whose digits are not modelled, and [LogValue p v s] is
    [`p${v}s`] for a value [v] that is not a string. *)
Inductive LogLine : Type :=
| Log (s : string)
| LogNumber (prefix : string) (n : Q)
| LogValue (prefix : string) (v : JsValue) (suffix : string).

(** The template literal [`prefix${v}suffix`]: a known string when [v] is a
    string. *)
Definition template (prefix : string) (v : JsValue) (suffix : string) : LogLine :=
  match v with
  | JStr s => Log (prefix +:+ s +:+ suffix)
  | _ => LogValue prefix v suffix
  end.

Record Item : Type := mkItem {
  item_name : string;
  item_quantity : Q;
  item_price : Q;
}.

Record SimulationData : Type := mkData {
  orderId : string;
  customerId : string;
  merchantId : string;
  amount : Q;
  items : list Item;
  customerPhone : string;
  merchantPhone : string;
  timestamp : string;
}.

(** [interface ExecutionStep]; an optional field that is [undefined] is
    [None]. [nodeName] is declared a string and holds whatever value the
    node's label is. *)
Record ExecutionStep : Type := mkStep {
  step_id : string;
  nodeId : string;
  nodeName : JsValue;
  status : StepStatus;
  startTime : option Z;
  endTime : option Z;
  duration : option Z;
  input : option JsValue;
  output : option JsValue;
  error : option string;
  logs : list LogLine;
}.

(** What [simulateNodeExecution] returns: [{ output, error?, logs }]. *)
Record ExecResult : Type := mkResult {
  res_output : JsValue;
  res_error : option string;
  res_logs : list LogLine;
}.

Definition bool_text (b : bool) : string := if b then "true" else "false".

(** [function simulateNodeExecution(node, data)]; the [switch] on
    [node.type] is the chain of its [===] tests. *)
Definition simulateNodeExecution (node : option Node) (data : SimulationData)
  : M ExecResult :=
  match node with
  | None =>
      ret (mkResult JNull (Some "Node not found") [Log "Error: Node not found"])
  | Some n =>
      let ty := node_type n in
      if decide (ty = Some "start") then
        run t := Date_now in
        ret (mkResult
               (JObj [("flowId", JStr "flow-123"); ("startTime", JIsoTime t)])
               None
               [Log "Flow execution started";
                Log ("Processing order " +:+ orderId data)])
      else if decide (ty = Some "notification") then
        run r := Math_random in
        ret (mkResult
               (JObj [("messageId", JRandomId "msg-" r); ("sent", JBool true)])
               None
               [Log ("Sending notification to " +:+ customerPhone data);
                Log "SMS gateway connection established";
                Log "Message queued for delivery"])
      else if decide (ty = Some "payment") then
        run r := Math_random in
        ret (mkResult
               (JObj [("transactionId", JRandomId "txn-" r);
                      ("amount", JNum (amount data));
                      ("status", JStr "completed")])
               None
               [LogNumber "Processing payment of ₹" (amount data);
                Log "UPI collect request initiated";
                Log "Payment successful"])
      else if decide (ty = Some "condition") then
        run r := Math_random in
        let condition := gt r (1 # 2) in
        ret (mkResult
               (JObj [("condition", JBool condition);
                      ("branch", JStr (bool_text condition))])
               None
               [Log "Evaluating condition: amount > 200";
                Log ("Condition result: " +:+ bool_text condition)])
      else if decide (ty = Some "action") then
        ret (mkResult
               (JObj [("response",
                       JObj [("status", JStr "success");
                             ("data", JObj [("processed", JBool true)])]);
                      ("statusCode", JNum 200)])
               None
               [Log "Executing HTTP request";
                Log "Request sent to external API";
                Log "Response received successfully"])
      else if decide (ty = Some "end") then
        run t := Date_now in
        ret (mkResult
               (JObj [("completed", JBool true); ("endTime", JIsoTime t)])
               None
               [Log "Flow execution completed";
                Log "Cleanup tasks performed"])
      else
        ret (mkResult
               (JObj [("nodeType", from_option JStr JUndefined ty);
                      ("processed", JBool true)])
               None
               [Log ("Executing " +:+ default "undefined" ty +:+ " node");
                Log "Processing completed"])
  end.

(** *** The component state *)

(** What the timeout callback created by one call of [executeNextStep]
    captured: the step index, the node found for it, and the test data of
    that render; [p_delay] is the delay it was scheduled with. *)
Record Pending : Type := mkPending {
  p_index : Z;
  p_node : option Node;
  p_data : SimulationData;
  p_delay : Z;
}.

Record State : Type := mkState {
  executionSteps : list ExecutionStep;
  currentStepIndex : Z;
  simulationData : SimulationData;
  isPlaying : bool;
  playbackSpeed : Q;
  selectedStep : option ExecutionStep;
  timeouts : list Pending;
}.

Definition with_steps (f : list ExecutionStep → list ExecutionStep) (st : State) : State :=
  mkState (f (executionSteps st)) (currentStepIndex st) (simulationData st)
          (isPlaying st) (playbackSpeed st) (selectedStep st) (timeouts st).

Definition with_index (f : Z → Z) (st : State) : State :=
  mkState (executionSteps st) (f (currentStepIndex st)) (simulationData st)
          (isPlaying st) (playbackSpeed st) (selectedStep st) (timeouts st).

Definition with_playing (b : bool) (st : State) : State :=
  mkState (executionSteps st) (currentStepIndex st) (simulationData st)
          b (playbackSpeed st) (selectedStep st) (timeouts st).

Definition with_timeouts (f : list Pending → list Pending) (st : State) : State :=
  mkState (executionSteps st) (currentStepIndex st) (simulationData st)
          (isPlaying st) (playbackSpeed st) (selectedStep st) (f (timeouts st)).

(** [arr[i]] for a number [i] that is an integer: [undefined] below zero
    and past the end. *)
Definition at_index {A} (l : list A) (i : Z) : option A :=
  if bool_decide (i < 0) then None else l !! Z.to_nat i.

(** [prev.map((step, index) => index === i ? f(step) : step)] *)
Definition map_at (i : Z) (f : ExecutionStep → ExecutionStep)
  (prev : list ExecutionStep) : list ExecutionStep :=
  imap (λ index step, if bool_decide (Z.of_nat index = i) then f step else step) prev.

(** The steps built by the effect on [nodes]:
    [nodes.map((node, index) => ({ id: `step-${index}`, nodeId: node.id,
       nodeName: node.data?.label || node.type || 'Unknown',
       status: 'pending', logs: [] }))] *)
Definition initial_step (index : nat) (node : Node) : ExecutionStep :=
  mkStep ("step-" +:+ pretty index) (node_id node)
         (if truthy (data_label node) then data_label node
          else JStr (default "Unknown" (or_else (node_type node) (Some "Unknown"))))
         pending None None None None None None [].

Definition initial_steps (nodes : list Node) : list ExecutionStep :=
  imap initial_step nodes.

(** [useEffect(() => { setExecutionSteps(steps); setCurrentStepIndex(0) }, [nodes])] *)
Definition initialize (nodes : list Node) (st : State) : State :=
  with_index (λ _, 0) (with_steps (λ _, initial_steps nodes) st).

(** The state of the first render, before the effect above ran. *)
Definition first_render (data : SimulationData) : State :=
  mkState [] 0 data false 1 None [].

(** [{ ...step, status: 'pending', startTime: undefined, endTime: undefined,
      duration: undefined, output: undefined, error: undefined, logs: [] }] *)
Definition reset_step (step : ExecutionStep) : ExecutionStep :=
  mkStep (step_id step) (nodeId step) (nodeName step) pending
         None None None (input step) None None [].

(** [{ ...step, status: 'running', startTime: Date.now(),
      logs: [...step.logs, `Executing ${step.nodeName}...`] }] *)
Definition start_step (now : Z) (step : ExecutionStep) : ExecutionStep :=
  mkStep (step_id step) (nodeId step) (nodeName step) running
         (Some now) (endTime step) (duration step) (input step)
         (output step) (error step)
         (logs step ++ [template "Executing " (nodeName step) "..."]).

(** [{ ...step, status: success ? 'completed' : 'failed', endTime: Date.now(),
      duration, output: success ? result.output : undefined,
      error: success ? undefined : result.error,
      logs: [...step.logs, ...result.logs,
             success ? 'Completed successfully' : 'Execution failed'] }] *)
Definition seal_step (success : bool) (dur : Z) (result : ExecResult) (now : Z)
  (step : ExecutionStep) : ExecutionStep :=
  mkStep (step_id step) (nodeId step) (nodeName step)
         (if success then completed else failed)
         (startTime step) (Some now) (Some dur) (input step)
         (if success then Some (res_output result) else None)
         (if success then None else res_error result)
         (logs step ++ res_logs result
            ++ [Log (if success then "Completed successfully" else "Execution failed")]).

(** [const executeNextStep = useCallback(() => { ... })], up to the call
    of [setTimeout]. [Date.now()] is called inside the [map] callback, for
    the step whose index is the current one. With a negative index
    [currentStep] is [undefined]: [currentStep.nodeId] is read inside the
    callback of [nodes.find], so the call throws when there is a node to
    look at, and with no node at all nothing is found, no step is changed and
    the timeout is still scheduled. *)
Definition executeNextStep (nodes : list Node) (st : State) : M (Outcome State) :=
  if bool_decide (Z.of_nat (length (executionSteps st)) ≤ currentStepIndex st) then
    ret (Done (with_playing false st))
  else
    match at_index (executionSteps st) (currentStepIndex st) with
    | None =>
        match nodes with
        | [] =>
            run r := Math_random in
            let scheduled :=
              mkPending (currentStepIndex st) None (simulationData st)
                        (floor_scaled r 1000 500) in
            ret (Done (with_timeouts (λ ts, ts ++ [scheduled]) st))
        | _ :: _ => ret (Threw "TypeError")
        end
    | Some currentStep =>
        let node := snd <$> list_find (λ n, node_id n = nodeId currentStep) nodes in
        run now := Date_now in
        run r := Math_random in
        let scheduled :=
          mkPending (currentStepIndex st) node (simulationData st)
                    (floor_scaled r 1000 500) in
        ret (Done (with_timeouts (λ ts, ts ++ [scheduled])
                     (with_steps (map_at (currentStepIndex st) (start_step now)) st)))
    end.

(** The callback given to [setTimeout] by [executeNextStep], run against
    the state of the moment it fires. [simulateNodeExecution] and
    [Date.now()] are called inside the [map] callback, for the one index
    that equals the captured [currentStepIndex], if there is one. *)
Definition stepTimeout (p : Pending) (st : State) : M State :=
  run r1 := Math_random in
  let success := gt r1 (1 # 10) in
  run r2 := Math_random in
  let dur := floor_scaled r2 2000 500 in
  run steps := match at_index (executionSteps st) (p_index p) with
               | Some _ =>
                   run result := simulateNodeExecution (p_node p) (p_data p) in
                   run now := Date_now in
                   ret (map_at (p_index p) (seal_step success dur result now)
                          (executionSteps st))
               | None => ret (executionSteps st)
               end in
  ret (with_index (λ prev, prev + 1) (with_steps (λ _, steps) st)).

(** [const startSimulation = () => { ... }] *)
Definition startSimulation (st : State) : State :=
  let st' := with_playing true st in
  if bool_decide (Z.of_nat (length (executionSteps st)) ≤ currentStepIndex st) then
    with_steps (map reset_step) (with_index (λ _, 0) st')
  else st'.

(** [const pauseSimulation = () => { setIsPlaying(false) }] *)
Definition pauseSimulation (st : State) : State := with_playing false st.

(** [const stopSimulation = () => { ... }], without the call of [onStop],
    which belongs to the parent. The timeouts of [executeNextStep] are not
    cleared. *)
Definition stopSimulation (st : State) : State :=
  with_steps (map reset_step) (with_index (λ _, 0) (with_playing false st)).

(** [const jumpToStep = (stepIndex: number) => { ... }] *)
Definition jumpToStep (stepIndex : Z) (st : State) : State :=
  with_playing false (with_index (λ _, stepIndex) st).

(** *** The controller as a transition system *)

(** What can happen to a mounted simulator: the three buttons, a call of
    [jumpToStep], a direct call of [executeNextStep], the timer of the
    auto-play effect firing, and the [k]-th outstanding timeout of
    [executeNextStep] firing (their delays are random, so they fire in any
    order). *)
Inductive Op : Type :=
| Play
| Pause
| Stop
| JumpTo (stepIndex : Z)
| Step
| AutoPlay
| Fire (k : nat).

(** The guard of the auto-play effect:
    [if (!isPlaying || currentStepIndex >= executionSteps.length) return] *)
Definition autoPlay_armed (st : State) : bool :=
  isPlaying st
  && negb (bool_decide (Z.of_nat (length (executionSteps st)) ≤ currentStepIndex st)).

Definition step_op (nodes : list Node) (op : Op) (st : State) : M State :=
  match op with
  | Play => ret (startSimulation st)
  | Pause => ret (pauseSimulation st)
  | Stop => ret (stopSimulation st)
  | JumpTo i => ret (jumpToStep i st)
  | Step =>
      run o := executeNextStep nodes st in
      ret (settle st o)
  | AutoPlay =>
      if autoPlay_armed st then
        run o := executeNextStep nodes st in
        ret (settle st o)
      else ret st
  | Fire k =>
      match timeouts st !! k with
      | Some p => stepTimeout p (with_timeouts (delete k) st)
      | None => ret st
      end
  end.

Fixpoint runOps (nodes : list Node) (ops : list Op) (st : State) : M State :=
  match ops with
  | [] => ret st
  | op :: rest => run st' := step_op nodes op st in runOps nodes rest st'
  end.

(** The state after the effect on [nodes] ran in a fresh component. *)
Definition start_state (nodes : list Node) (data : SimulationData) : State :=
  initialize nodes (first_render data).

(** Auto-play, started in [st0], has visited the first [k] steps: they are
    sealed, the others are untouched, and nothing else of the state moved. *)
Definition visited (nodes : list Node) (st0 : State) (k : nat) (st : State) : Prop :=
  currentStepIndex st = Z.of_nat k
  ∧ isPlaying st = true
  ∧ timeouts st = []
  ∧ reset_step <$> executionSteps st = initial_steps nodes
  ∧ simulationData st = simulationData st0
  ∧ playbackSpeed st = playbackSpeed st0
  ∧ selectedStep st = selectedStep st0
  ∧ (∀ (i : nat) s, executionSteps st !! i = Some s → (i < k)%nat →
       status s = completed ∨ status s = failed)
  ∧ (∀ (i : nat) s, executionSteps st !! i = Some s → (k ≤ i)%nat →
       status s = pending).

(** The simulator as mounted by the builder: its props [nodes] and [edges],
    the parent's [isSimulating] flag that [onStop] clears, and its own
    state. *)
Record Mounted : Type := mkMounted {
  nodes : list Node;
  edges : list Edge;
  isSimulating : bool;
  state : State;
}.

Definition mount (nodes : list Node) (edges : list Edge) (data : SimulationData)
  : Mounted :=
  mkMounted nodes edges true (start_state nodes data).

Definition apply (op : Op) (m : Mounted) : M Mounted :=
  run st := step_op (nodes m) op (state m) in
  ret (mkMounted (nodes m) (edges m)
         (match op with Stop => false | _ => isSimulating m end) st).

Fixpoint applyAll (ops : list Op) (m : Mounted) : M Mounted :=
  match ops with
  | [] => ret m
  | op :: rest => run m' := apply op m in applyAll rest m'
  end.

(** Auto-play of [n] steps: each time the effect's timer fires and then the
    timeout it started. *)
Fixpoint playThrough (n : nat) : list Op :=
  match n with
  | O => []
  | S n' => AutoPlay :: Fire 0 :: playThrough n'
  end.

(** A full run of a freshly mounted simulator: Play, then auto-play until
    every step was visited. *)
Definition fullRun (nodes : list Node) (edges : list Edge) (data : SimulationData)
  : M Mounted :=
  applyAll (Play :: playThrough (length nodes)) (mount nodes edges data).

(** *** What every state of a mounted simulator keeps *)

(** The state keeps one record per node, in node order, with the identity
    the effect gave it; no record is skipped or carries an error text; and
    every outstanding timeout captured a node that was found, unless there
    is no node at all. *)
Definition kept (nodes : list Node) (st : State) : Prop :=
  reset_step <$> executionSteps st = initial_steps nodes
  ∧ Forall (λ step, status step ≠ skipped ∧ error step = None) (executionSteps st)
  ∧ Forall (λ p, nodes = [] ∨ is_Some (p_node p)) (timeouts st).

(** *** Values derived in the render *)

#[global] Instance StepStatus_eq_dec : EqDecision StepStatus.
Proof. solve_decision. Defined.

(** [executionSteps.filter(step => step.status === 'completed').length] *)
Definition completedSteps (st : State) : nat :=
  length (filter (λ step, status step = completed) (executionSteps st)).

(** [executionSteps.filter(step => step.status === 'failed').length] *)
Definition failedSteps (st : State) : nat :=
  length (filter (λ step, status step = failed) (executionSteps st)).

End Sim.

(** ** FlowSimulator.tsx on the JavaScript heap

    The embedding above treats the graph as a value, which no handler could
    change. Here the same component runs on a heap: objects and arrays are
    cells, a value refers to a cell, the [nodes] and [edges] props are
    references into the heap that the simulator shares with the builder, and
    every property read, spread, literal and [push] of the source is an
    operation on that heap. Whether the graph survives a handler then depends
    on what the handler does. *)

Module Mem.

(** A JavaScript value: a primitive, or a reference to an object or array. *)
Inductive Val : Type :=
| VUndefined
| VNull
| VBool (b : bool)
| VNum (q : Q)
| VStr (s : string)
| VRef (l : nat).

(** A cell holds a plain object (its own properties, in insertion order) or
    an array. The heap holds data only: no cell is a function. *)
Inductive Cell : Type :=
| Object (fields : list (string * Val))
| Array (items : list Val).

Record Store : Type := mkStore {
  heap : list Cell;
  world : World;
}.

(** The conversions of the language whose characters are not modelled. *)
Class Builtins : Type := {
  (** [r.toString(36).substr(2, 9)] *)
  toString36 : Q → string;
  (** [new Date(t).toISOString()] *)
  toISOString : Z → string;
  (** [`${n}`] for a number [n] *)
  number_text : Q → string;
  (** [`${o}`] for the object or array at a cell *)
  object_text : list Cell → nat → string;
  (** the strings a string iterates over *)
  characters : string → list string;
}.

(** Computations on the store; one that throws leaves the store it reached. *)
Definition Prog (A : Type) : Type := Store → Outcome A * Store.

Definition pure {A} (a : A) : Prog A := λ s, (Done a, s).

Definition throw {A} (e : string) : Prog A := λ s, (Threw e, s).

Definition and_then {A B} (m : Prog A) (k : A → Prog B) : Prog B :=
  λ s, match m s with
       | (Done a, s') => k a s'
       | (Threw e, s') => (Threw e, s')
       end.

Notation "'exec' x ':=' m 'in' k" := (and_then m (λ x, k))
  (at level 10, x name, m at level 100, k at level 200, only parsing).

(** A read of the world. *)
Definition lift {A} (m : M A) : Prog A :=
  λ s, let (a, w) := m (world s) in (Done a, mkStore (heap s) w).

(** *** The operations of the language *)

(** An object or array literal: a new cell, and the reference to it. *)
Definition alloc (c : Cell) : Prog Val :=
  λ s, (Done (VRef (length (heap s))), mkStore (heap s ++ [c]) (world s)).

Definition field (k : string) (fields : list (string * Val)) : Val :=
  match list_find (λ kv, kv.1 = k) fields with
  | Some (_, (_, x)) => x
  | None => VUndefined
  end.

(** [v.k], for a name [k] that is neither [length] nor an index (none of
    the names read below is): a [TypeError] on [undefined] and [null], the
    property of an object, and [undefined] on an array or a primitive. *)
Definition prop (v : Val) (k : string) : Prog Val :=
  λ s, match v with
       | VUndefined | VNull => (Threw "TypeError", s)
       | VRef l =>
           (Done match heap s !! l with
                 | Some (Object fields) => field k fields
                 | Some (Array _) | None => VUndefined
                 end, s)
       | VBool _ | VNum _ | VStr _ => (Done VUndefined, s)
       end.

(** [v?.k] *)
Definition prop_opt (v : Val) (k : string) : Prog Val :=
  match v with
  | VUndefined | VNull => pure VUndefined
  | _ => prop v k
  end.

(** The elements of an array, for [a.length], [a[i]], [a.map] and [a.find].
    The component's state and props hold arrays wherever the code uses these;
    on anything else the read throws. *)
Definition elements (v : Val) : Prog (list Val) :=
  λ s, match v with
       | VRef l =>
           match heap s !! l with
           | Some (Array items) => (Done items, s)
           | _ => (Threw "TypeError", s)
           end
       | _ => (Threw "TypeError", s)
       end.

(** [...v] in an array literal: the elements of an array, the characters of
    a string, a [TypeError] on anything else. *)
Definition iterate `{Builtins} (v : Val) : Prog (list Val) :=
  match v with
  | VStr str => pure (VStr <$> characters str)
  | _ => elements v
  end.

Definition indexed (items : list Val) : list (string * Val) :=
  imap (λ i x, (pretty i, x)) items.

(** [...v] in an object literal: the own properties of [v]. *)
Definition own_fields `{Builtins} (v : Val) : Prog (list (string * Val)) :=
  λ s, (Done match v with
             | VRef l =>
                 match heap s !! l with
                 | Some (Object fields) => fields
                 | Some (Array items) => indexed items
                 | None => []
                 end
             | VStr str => indexed (VStr <$> characters str)
             | _ => []
             end, s).

(** [k: x] in an object literal: a property already there keeps its place. *)
Definition set_field (k : string) (x : Val) (fields : list (string * Val))
  : list (string * Val) :=
  if bool_decide (k ∈ fields.*1)
  then (λ kv, if decide (kv.1 = k) then (k, x) else kv) <$> fields
  else fields ++ [(k, x)].

(** [{ ...spread, k1: x1, ... }] *)
Definition literal (spread props : list (string * Val)) : Prog Val :=
  alloc (Object (foldl (λ fields kv, set_field kv.1 kv.2 fields) spread props)).

(** [a.push(x)]: the one operation below that writes to a cell that is
    already there. *)
Definition push (a x : Val) : Prog unit :=
  λ s, match a with
       | VRef l =>
           match heap s !! l with
           | Some (Array items) =>
               (Done tt, mkStore (<[l := Array (items ++ [x])]> (heap s)) (world s))
           | _ => (Threw "TypeError", s)
           end
       | _ => (Threw "TypeError", s)
       end.

(** [`${v}`] *)
Definition text `{Builtins} (v : Val) : Prog string :=
  λ s, (Done match v with
             | VUndefined => "undefined"
             | VNull => "null"
             | VBool b => Sim.bool_text b
             | VNum q => number_text q
             | VStr str => str
             | VRef l => object_text (heap s) l
             end, s).

(** [`prefix${v}suffix`] *)
Definition template `{Builtins} (prefix : string) (v : Val) (suffix : string)
  : Prog Val :=
  exec str := text v in pure (VStr (prefix +:+ str +:+ suffix)).

(** [a === b] *)
Definition strict_equal (a b : Val) : bool :=
  match a, b with
  | VUndefined, VUndefined | VNull, VNull => true
  | VBool x, VBool y => bool_decide (x = y)
  | VNum x, VNum y => Qeq_bool x y
  | VStr x, VStr y => bool_decide (x = y)
  | VRef x, VRef y => bool_decide (x = y)
  | _, _ => false
  end.

Definition truthy (v : Val) : bool :=
  match v with
  | VUndefined | VNull => false
  | VBool b => b
  | VNum q => negb (Qeq_bool q 0)
  | VStr str => negb (bool_decide (str = ""))
  | VRef _ => true
  end.

(** The callbacks of [a.map(f)], in order, with their indices. *)
Fixpoint each {A} (f : Val → nat → Prog A) (index : nat) (items : list Val)
  : Prog (list A) :=
  match items with
  | [] => pure []
  | x :: rest =>
      exec y := f x index in
      exec ys := each f (S index) rest in
      pure (y :: ys)
  end.

(** [a.map(f)]: a new array of the results. None of the callbacks below
    writes to the array it is called on, so its elements are read ahead. *)
Definition array_map (a : Val) (f : Val → nat → Prog Val) : Prog Val :=
  exec items := elements a in
  exec results := each f 0 items in
  alloc (Array results).

Fixpoint first_where (test : Val → Prog bool) (items : list Val) : Prog Val :=
  match items with
  | [] => pure VUndefined
  | x :: rest =>
      exec found := test x in
      if found then pure x else first_where test rest
  end.

(** [a.find(test)] *)
Definition array_find (a : Val) (test : Val → Prog bool) : Prog Val :=
  exec items := elements a in first_where test items.

(** What a value spells out when it is read to the end, as a JSON
    serialiser would: [None] when a reference leads to no cell, or when
    [depth] cells in a row are not enough. *)
Fixpoint contents (h : list Cell) (depth : nat) (v : Val) : option JsValue :=
  match v with
  | VUndefined => Some JUndefined
  | VNull => Some JNull
  | VBool b => Some (JBool b)
  | VNum q => Some (JNum q)
  | VStr str => Some (JStr str)
  | VRef l =>
      match depth with
      | O => None
      | S d =>
          match h !! l with
          | Some (Object fields) =>
              JObj <$> mapM (λ kv, pair kv.1 <$> contents h d kv.2) fields
          | Some (Array items) => JArr <$> mapM (contents h d) items
          | None => None
          end
      end
  end.

(** *** The component *)

Section Component.

Context `{Builtins}.

(** [function simulateNodeExecution(node, data)]: the [logs] array is a
    cell that the calls of [push] write to, and the result is a new object
    that refers to it. *)
Definition simulateNodeExecution (node data : Val) : Prog Val :=
  if negb (truthy node) then
    exec logs := alloc (Array [VStr "Error: Node not found"]) in
    literal [] [("output", VNull); ("error", VStr "Node not found"); ("logs", logs)]
  else
    exec logs := alloc (Array []) in
    exec ty := prop node "type" in
    if strict_equal ty (VStr "start") then
      exec _ := push logs (VStr "Flow execution started") in
      exec orderId := prop data "orderId" in
      exec line := template "Processing order " orderId "" in
      exec _ := push logs line in
      exec t := lift Date_now in
      exec output := literal [] [("flowId", VStr "flow-123");
                                 ("startTime", VStr (toISOString t))] in
      literal [] [("output", output); ("logs", logs)]
    else if strict_equal ty (VStr "notification") then
      exec customerPhone := prop data "customerPhone" in
      exec line := template "Sending notification to " customerPhone "" in
      exec _ := push logs line in
      exec _ := push logs (VStr "SMS gateway connection established") in
      exec _ := push logs (VStr "Message queued for delivery") in
      exec r := lift Math_random in
      exec output := literal [] [("messageId", VStr ("msg-" +:+ toString36 r));
                                 ("sent", VBool true)] in
      literal [] [("output", output); ("logs", logs)]
    else if strict_equal ty (VStr "payment") then
      exec amount := prop data "amount" in
      exec line := template "Processing payment of ₹" amount "" in
      exec _ := push logs line in
      exec _ := push logs (VStr "UPI collect request initiated") in
      exec _ := push logs (VStr "Payment successful") in
      exec r := lift Math_random in
      exec amount' := prop data "amount" in
      exec output := literal [] [("transactionId", VStr ("txn-" +:+ toString36 r));
                                 ("amount", amount');
                                 ("status", VStr "completed")] in
      literal [] [("output", output); ("logs", logs)]
    else if strict_equal ty (VStr "condition") then
      exec r := lift Math_random in
      let condition := gt r (1 # 2) in
      exec _ := push logs (VStr "Evaluating condition: amount > 200") in
      exec line := template "Condition result: " (VBool condition) "" in
      exec _ := push logs line in
      exec output := literal [] [("condition", VBool condition);
                                 ("branch", VStr (Sim.bool_text condition))] in
      literal [] [("output", output); ("logs", logs)]
    else if strict_equal ty (VStr "action") then
      exec _ := push logs (VStr "Executing HTTP request") in
      exec _ := push logs (VStr "Request sent to external API") in
      exec _ := push logs (VStr "Response received successfully") in
      exec data' := literal [] [("processed", VBool true)] in
      exec response := literal [] [("status", VStr "success"); ("data", data')] in
      exec output := literal [] [("response", response); ("statusCode", VNum 200)] in
      literal [] [("output", output); ("logs", logs)]
    else if strict_equal ty (VStr "end") then
      exec _ := push logs (VStr "Flow execution completed") in
      exec _ := push logs (VStr "Cleanup tasks performed") in
      exec t := lift Date_now in
      exec output := literal [] [("completed", VBool true);
                                 ("endTime", VStr (toISOString t))] in
      literal [] [("output", output); ("logs", logs)]
    else
      exec ty' := prop node "type" in
      exec line := template "Executing " ty' " node" in
      exec _ := push logs line in
      exec _ := push logs (VStr "Processing completed") in
      exec ty'' := prop node "type" in
      exec output := literal [] [("nodeType", ty''); ("processed", VBool true)] in
      literal [] [("output", output); ("logs", logs)].

(** What the timeout callback of one call of [executeNextStep] captured. *)
Record Pending : Type := mkPending {
  p_index : Z;
  p_node : Val;
  p_data : Val;
  p_delay : Z;
}.

(** The state of [useState]: [executionSteps], [simulationData] and
    [selectedStep] are references into the heap. *)
Record State : Type := mkState {
  executionSteps : Val;
  currentStepIndex : Z;
  simulationData : Val;
  isPlaying : bool;
  playbackSpeed : Q;
  selectedStep : Val;
  timeouts : list Pending;
}.

Definition with_steps (steps : Val) (st : State) : State :=
  mkState steps (currentStepIndex st) (simulationData st)
          (isPlaying st) (playbackSpeed st) (selectedStep st) (timeouts st).

Definition with_index (f : Z → Z) (st : State) : State :=
  mkState (executionSteps st) (f (currentStepIndex st)) (simulationData st)
          (isPlaying st) (playbackSpeed st) (selectedStep st) (timeouts st).

Definition with_playing (b : bool) (st : State) : State :=
  mkState (executionSteps st) (currentStepIndex st) (simulationData st)
          b (playbackSpeed st) (selectedStep st) (timeouts st).

Definition with_timeouts (f : list Pending → list Pending) (st : State) : State :=
  mkState (executionSteps st) (currentStepIndex st) (simulationData st)
          (isPlaying st) (playbackSpeed st) (selectedStep st) (f (timeouts st)).

(** The effect on [nodes]:
    [const steps = nodes.map((node, index) => ({ id: `step-${index}`,
       nodeId: node.id, nodeName: node.data?.label || node.type || 'Unknown',
       status: 'pending', logs: [] }));
     setExecutionSteps(steps); setCurrentStepIndex(0)] *)
Definition initialize (nodes : Val) (st : State) : Prog State :=
  exec steps :=
    array_map nodes (λ node index,
      exec id := prop node "id" in
      exec data := prop node "data" in
      exec label := prop_opt data "label" in
      exec nodeName :=
        (if truthy label then pure label
         else exec ty := prop node "type" in
              pure (if truthy ty then ty else VStr "Unknown")) in
      exec logs := alloc (Array []) in
      literal [] [("id", VStr ("step-" +:+ pretty index)); ("nodeId", id);
                  ("nodeName", nodeName); ("status", VStr "pending");
                  ("logs", logs)]) in
  pure (with_index (λ _, 0) (with_steps steps st)).

(** [prev.map(step => ({ ...step, status: 'pending', startTime: undefined,
      endTime: undefined, duration: undefined, output: undefined,
      error: undefined, logs: [] }))] *)
Definition reset_steps (prev : Val) : Prog Val :=
  array_map prev (λ step _,
    exec spread := own_fields step in
    exec logs := alloc (Array []) in
    literal spread [("status", VStr "pending"); ("startTime", VUndefined);
                    ("endTime", VUndefined); ("duration", VUndefined);
                    ("output", VUndefined); ("error", VUndefined);
                    ("logs", logs)]).

(** [const executeNextStep = useCallback(() => { ... })], up to the call of
    [setTimeout]. *)
Definition executeNextStep (nodes : Val) (st : State) : Prog State :=
  exec steps := elements (executionSteps st) in
  if bool_decide (Z.of_nat (length steps) ≤ currentStepIndex st) then
    pure (with_playing false st)
  else
    let currentStep := default VUndefined (Sim.at_index steps (currentStepIndex st)) in
    exec node :=
      array_find nodes (λ n,
        exec id := prop n "id" in
        exec nodeId := prop currentStep "nodeId" in
        pure (strict_equal id nodeId)) in
    exec started :=
      array_map (executionSteps st) (λ step index,
        if bool_decide (Z.of_nat index = currentStepIndex st) then
          exec spread := own_fields step in
          exec now := lift Date_now in
          exec logs := prop step "logs" in
          exec lines := iterate logs in
          exec nodeName := prop step "nodeName" in
          exec line := template "Executing " nodeName "..." in
          exec logs' := alloc (Array (lines ++ [line])) in
          literal spread [("status", VStr "running");
                          ("startTime", VNum (inject_Z now));
                          ("logs", logs')]
        else pure step) in
    exec r := lift Math_random in
    let scheduled :=
      mkPending (currentStepIndex st) node (simulationData st)
                (floor_scaled r 1000 500) in
    pure (with_timeouts (λ ts, ts ++ [scheduled]) (with_steps started st)).

(** The callback given to [setTimeout] by [executeNextStep]. *)
Definition stepTimeout (p : Pending) (st : State) : Prog State :=
  exec r1 := lift Math_random in
  let success := gt r1 (1 # 10) in
  exec r2 := lift Math_random in
  let duration := floor_scaled r2 2000 500 in
  exec sealed :=
    array_map (executionSteps st) (λ step index,
      if bool_decide (Z.of_nat index = p_index p) then
        exec result := simulateNodeExecution (p_node p) (p_data p) in
        exec spread := own_fields step in
        exec now := lift Date_now in
        exec output := (if success then prop result "output" else pure VUndefined) in
        exec error := (if success then pure VUndefined else prop result "error") in
        exec logs := prop step "logs" in
        exec lines := iterate logs in
        exec resultLogs := prop result "logs" in
        exec resultLines := iterate resultLogs in
        exec logs' :=
          alloc (Array (lines ++ resultLines
                          ++ [VStr (if success then "Completed successfully"
                                    else "Execution failed")])) in
        literal spread [("status", VStr (if success then "completed" else "failed"));
                        ("endTime", VNum (inject_Z now));
                        ("duration", VNum (inject_Z duration));
                        ("output", output);
                        ("error", error);
                        ("logs", logs')]
      else pure step) in
  pure (with_index (λ prev, prev + 1) (with_steps sealed st)).

(** [const startSimulation = () => { ... }] *)
Definition startSimulation (st : State) : Prog State :=
  let st' := with_playing true st in
  exec steps := elements (executionSteps st) in
  if bool_decide (Z.of_nat (length steps) ≤ currentStepIndex st) then
    exec reset := reset_steps (executionSteps st) in
    pure (with_steps reset (with_index (λ _, 0) st'))
  else pure st'.

(** [const pauseSimulation = () => { setIsPlaying(false) }] *)
Definition pauseSimulation (st : State) : Prog State := pure (with_playing false st).

(** [const stopSimulation = () => { ... }]; [onStop] is the parent's
    callback, which returns nothing: any function of the store. *)
Definition stopSimulation (onStop : Store → Store) (st : State) : Prog State :=
  exec reset := reset_steps (executionSteps st) in
  exec _ := (λ s, (Done tt, onStop s)) in
  pure (with_steps reset (with_index (λ _, 0) (with_playing false st))).

(** [const jumpToStep = (stepIndex: number) => { ... }] *)
Definition jumpToStep (stepIndex : Z) (st : State) : Prog State :=
  pure (with_playing false (with_index (λ _, stepIndex) st)).

(** What can happen to the mounted component: the effect on [nodes] runs,
    and the operations of [Sim.Op]. *)
Inductive Op : Type :=
| Effect
| Play
| Pause
| Stop
| JumpTo (stepIndex : Z)
| Step
| AutoPlay
| Fire (k : nat).

(** The guard of the auto-play effect. *)
Definition autoPlay_armed (st : State) : Prog bool :=
  if isPlaying st then
    exec steps := elements (executionSteps st) in
    pure (negb (bool_decide (Z.of_nat (length steps) ≤ currentStepIndex st)))
  else pure false.

Definition handler (onStop : Store → Store) (nodes : Val) (op : Op) (st : State)
  : Prog State :=
  match op with
  | Effect => initialize nodes st
  | Play => startSimulation st
  | Pause => pauseSimulation st
  | Stop => stopSimulation onStop st
  | JumpTo i => jumpToStep i st
  | Step => executeNextStep nodes st
  | AutoPlay =>
      exec armed := autoPlay_armed st in
      if armed then executeNextStep nodes st else pure st
  | Fire k =>
      match timeouts st !! k with
      | Some p => stepTimeout p (with_timeouts (delete k) st)
      | None => pure st
      end
  end.

(** A handler that threw leaves the state of its render in place, and the
    heap as it was when it threw. *)
Definition step_op (onStop : Store → Store) (nodes : Val) (op : Op) (st : State)
  (s : Store) : State * Store :=
  match handler onStop nodes op st s with
  | (Done st', s') => (st', s')
  | (Threw _, s') => (st, s')
  end.

Fixpoint runOps (onStop : Store → Store) (nodes : Val) (ops : list Op) (st : State)
  (s : Store) : State * Store :=
  match ops with
  | [] => (st, s)
  | op :: rest =>
      let (st', s') := step_op onStop nodes op st s in
      runOps onStop nodes rest st' s'
  end.

End Component.

(** *** Cells that a computation leaves alone *)

(** [m] leaves the first [base] cells of the heap as they are (and may add
    cells, or write to cells past them). *)
Definition keeps {A} (base : nat) (m : Store → A * Store) : Prop :=
  ∀ s, (base ≤ length (heap s))%nat →
       take base (heap (m s).2) = take base (heap s).

End Mem.

(** ** FlowBuilder.tsx *)

Module Builder.

Inductive FlowStatus : Type := draft | active | inactive.

(** The [flowProperties] state. *)
Record FlowProperties : Type := mkProps {
  name : string;
  description : string;
  vertical : string;
  version : string;
  status : FlowStatus;
  tags : list string;
}.

(** [FlowData.metadata]; a timestamp is either the stored string or
    [new Date().toISOString()]. *)
Record Metadata : Type := mkMeta {
  createdAt : JsValue;
  updatedAt : JsValue;
  createdBy : string;
  meta_tags : list string;
}.

(** [export interface FlowData] *)
Record FlowData : Type := mkFlow {
  flow_id : string;
  flow_name : string;
  flow_description : string;
  flow_vertical : string;
  flow_version : string;
  flow_status : FlowStatus;
  flow_nodes : list Node;
  flow_edges : list Edge;
  flow_metadata : Metadata;
}.

(** An entry of the undo history: [{ nodes: Node[]; edges: Edge[] }]. *)
Record Snapshot : Type := mkSnapshot {
  snap_nodes : list Node;
  snap_edges : list Edge;
}.

(** The [useState] cells of the component. *)
Record Editor : Type := mkEditor {
  nodes : list Node;
  edges : list Edge;
  selectedNode : option Node;
  activeTab : string;
  isDirty : bool;
  isSimulating : bool;
  flowProperties : FlowProperties;
  history : list Snapshot;
  historyIndex : nat;
}.

(** [const initialNodes: Node[] = [...]] *)
Definition initialNodes : list Node :=
  [mkNode "start-1" (Some "start") (100, 100)%Q (JObj [("label", JStr "Start")])].

(** [a || b] on strings. *)
Definition or_string (a : option string) (b : string) : string :=
  default b (or_else a (Some b)).

(** The state of the first render, for the [flow] prop given. *)
Definition initial (flow : option FlowData) : Editor :=
  let ns := from_option flow_nodes initialNodes flow in
  let es := from_option flow_edges [] flow in
  mkEditor ns es None "design" false false
    (mkProps (or_string (flow_name <$> flow) "New Flow")
             (or_string (flow_description <$> flow) "")
             (or_string (flow_vertical <$> flow) "kirana")
             (or_string (flow_version <$> flow) "1.0.0")
             (from_option flow_status draft flow)
             (from_option (λ f, meta_tags (flow_metadata f)) [] flow))
    [mkSnapshot ns es] 0.

(** [function getDefaultNodeData(nodeType: string)] *)
Definition getDefaultNodeData (nodeType : string) : JsValue :=
  match nodeType with
  | "start" =>
      JObj [("label", JStr "Start"); ("description", JStr "Flow starting point")]
  | "end" =>
      JObj [("label", JStr "End"); ("description", JStr "Flow ending point")]
  | "action" =>
      JObj [("label", JStr "Action");
            ("actionType", JStr "http_request");
            ("config", JObj [("method", JStr "GET"); ("url", JStr "");
                             ("headers", JObj []); ("body", JStr "")])]
  | "condition" =>
      JObj [("label", JStr "Condition");
            ("condition", JObj [("field", JStr "");
                                ("operator", JStr "equals");
                                ("value", JStr "")])]
  | "data" =>
      JObj [("label", JStr "Data");
            ("dataType", JStr "variable");
            ("config", JObj [("variableName", JStr ""); ("defaultValue", JStr "")])]
  | "trigger" =>
      JObj [("label", JStr "Trigger");
            ("triggerType", JStr "webhook");
            ("config", JObj [("url", JStr ""); ("method", JStr "POST")])]
  | "notification" =>
      JObj [("label", JStr "Notification");
            ("notificationType", JStr "sms");
            ("config", JObj [("template", JStr ""); ("recipients", JArr [])])]
  | "payment" =>
      JObj [("label", JStr "Payment");
            ("paymentType", JStr "upi_collect");
            ("config", JObj [("amount", JNum 0); ("description", JStr "")])]
  | _ => JObj [("label", JStr "Unknown")]
  end.

(** [saveToHistory]: it reads [nodes], [edges], [history] and
    [historyIndex] from its closure, that is, as they were in the render
    that created it, and sets [history], [historyIndex] and [isDirty].
    [base] is the state the handler's earlier updates produced; [closure]
    is the state of the render. *)
Definition saveToHistory (closure base : Editor) : Editor :=
  let newHistory :=
    take (S (historyIndex closure)) (history closure)
      ++ [mkSnapshot (nodes closure) (edges closure)] in
  mkEditor (nodes base) (edges base) (selectedNode base) (activeTab base)
           true (isSimulating base) (flowProperties base)
           newHistory (length newHistory - 1)%nat.

Definition with_graph (ns : list Node) (es : list Edge) (st : Editor) : Editor :=
  mkEditor ns es (selectedNode st) (activeTab st) (isDirty st) (isSimulating st)
           (flowProperties st) (history st) (historyIndex st).

Definition with_historyIndex (i : nat) (st : Editor) : Editor :=
  mkEditor (nodes st) (edges st) (selectedNode st) (activeTab st) (isDirty st)
           (isSimulating st) (flowProperties st) (history st) i.

Definition with_selectedNode (n : option Node) (st : Editor) : Editor :=
  mkEditor (nodes st) (edges st) n (activeTab st) (isDirty st)
           (isSimulating st) (flowProperties st) (history st) (historyIndex st).

(** [const undo = useCallback(() => { ... })]; reading [.nodes] of a
    history entry that does not exist throws. *)
Definition undo (st : Editor) : Outcome Editor :=
  if bool_decide (0 < historyIndex st)%nat then
    match history st !! (historyIndex st - 1)%nat with
    | Some prevState =>
        Done (with_historyIndex (historyIndex st - 1)%nat
                (with_graph (snap_nodes prevState) (snap_edges prevState) st))
    | None => Threw "TypeError"
    end
  else Done st.

(** [const redo = useCallback(() => { ... })] *)
Definition redo (st : Editor) : Outcome Editor :=
  if bool_decide (Z.of_nat (historyIndex st) < Z.of_nat (length (history st)) - 1) then
    match history st !! (historyIndex st + 1)%nat with
    | Some nextState =>
        Done (with_historyIndex (historyIndex st + 1)%nat
                (with_graph (snap_nodes nextState) (snap_edges nextState) st))
    | None => Threw "TypeError"
    end
  else Done st.

(** [const addNode = useCallback((nodeType, position?) => { ... })] *)
Definition addNode (nodeType : string) (position : option (Q * Q)) (st : Editor)
  : M Editor :=
  run now := Date_now in
  let id := nodeType +:+ "-" +:+ pretty now in
  run pos := match position with
             | Some p => ret p
             | None =>
                 run x := Math_random in
                 run y := Math_random in
                 ret (times x 400, times y 400)
             end in
  let newNode := mkNode id (Some nodeType) pos (getDefaultNodeData nodeType) in
  ret (saveToHistory st (with_graph (nodes st ++ [newNode]) (edges st) st)).

(** [const deleteNode = useCallback((nodeId: string) => { ... })] *)
Definition deleteNode (nodeId : string) (st : Editor) : Editor :=
  saveToHistory st
    (with_selectedNode None
       (with_graph
          (filter (λ node, node_id node ≠ nodeId) (nodes st))
          (filter (λ edge, edge_source edge ≠ nodeId ∧ edge_target edge ≠ nodeId)
                  (edges st))
          st)).

(** Every edge endpoint is the id of a node of the graph. *)
Definition edges_closed (ns : list Node) (es : list Edge) : Prop :=
  Forall (λ e, edge_source e ∈ node_id <$> ns ∧ edge_target e ∈ node_id <$> ns) es.

(** The [FlowData] object built by [handleSave], [handlePublish],
    [handleTest] and [exportFlow], for the status given. *)
Definition buildFlowData (flow : option FlowData) (st : Editor) (s : FlowStatus)
  : M FlowData :=
  run id := match or_else (flow_id <$> flow) None with
            | Some id => ret id
            | None => run now := Date_now in ret ("flow-" +:+ pretty now)
            end in
  run created := match flow with
                 | Some f =>
                     match createdAt (flow_metadata f) with
                     | JStr "" | JUndefined | JNull =>
                         run now := Date_now in ret (JIsoTime now)
                     | stored => ret stored
                     end
                 | None => run now := Date_now in ret (JIsoTime now)
                 end in
  run updated := Date_now in
  let p := flowProperties st in
  ret (mkFlow id (name p) (description p) (vertical p) (version p) s
         (nodes st) (edges st)
         (mkMeta created (JIsoTime updated) "current-user" (tags p))).

Definition with_status (s : FlowStatus) (p : FlowProperties) : FlowProperties :=
  mkProps (name p) (description p) (vertical p) (version p) s (tags p).

Definition with_flowProperties (f : FlowProperties → FlowProperties) (dirty : bool)
  (st : Editor) : Editor :=
  mkEditor (nodes st) (edges st) (selectedNode st) (activeTab st) dirty
           (isSimulating st) (f (flowProperties st)) (history st) (historyIndex st).

(** [const handleSave = useCallback(() => { ... })]: the flow handed to
    [onSave], and the next state. *)
Definition handleSave (flow : option FlowData) (st : Editor) : M (FlowData * Editor) :=
  run flowData := buildFlowData flow st (status (flowProperties st)) in
  ret (flowData, with_flowProperties id false st).

(** [const handlePublish = useCallback(() => { ... })]: the flow handed to
    [onPublish], and the next state. *)
Definition handlePublish (flow : option FlowData) (st : Editor)
  : M (FlowData * Editor) :=
  run flowData := buildFlowData flow st active in
  ret (flowData, with_flowProperties (with_status active) false st).

(** [const handleTest = useCallback(() => { ... })]: the flow handed to
    [onTest], and the next state. *)
Definition handleTest (flow : option FlowData) (st : Editor) : M (FlowData * Editor) :=
  run flowData := buildFlowData flow st (status (flowProperties st)) in
  ret (flowData,
       mkEditor (nodes st) (edges st) (selectedNode st) "simulate" (isDirty st)
                true (flowProperties st) (history st) (historyIndex st)).

(** [const onNodeClick = useCallback((_, node) => { setSelectedNode(node) })] *)
Definition onNodeClick (node : Node) (st : Editor) : Editor :=
  with_selectedNode (Some node) st.

(** [const onPaneClick = useCallback(() => { setSelectedNode(null) })] *)
Definition onPaneClick (st : Editor) : Editor := with_selectedNode None st.

(** *** The editor as a transition system *)

(** What the user can do through the handlers above; [SetProperties] is
    [setFlowProperties], which the properties form calls. *)
Inductive Action : Type :=
| AddNode (nodeType : string) (position : option (Q * Q))
| DeleteNode (nodeId : string)
| Undo
| Redo
| Save
| Publish
| Test
| NodeClick (node : Node)
| PaneClick
| SetProperties (p : FlowProperties).

Definition act (flow : option FlowData) (a : Action) (st : Editor) : M Editor :=
  match a with
  | AddNode nodeType position => addNode nodeType position st
  | DeleteNode nodeId => ret (deleteNode nodeId st)
  | Undo => ret (settle st (undo st))
  | Redo => ret (settle st (redo st))
  | Save => run r := handleSave flow st in ret (r.2)
  | Publish => run r := handlePublish flow st in ret (r.2)
  | Test => run r := handleTest flow st in ret (r.2)
  | NodeClick node => ret (onNodeClick node st)
  | PaneClick => ret (onPaneClick st)
  | SetProperties p => ret (with_flowProperties (λ _, p) (isDirty st) st)
  end.

Fixpoint actAll (flow : option FlowData) (actions : list Action) (st : Editor)
  : M Editor :=
  match actions with
  | [] => ret st
  | a :: rest => run st' := act flow a st in actAll flow rest st'
  end.

(** *** Keyboard shortcuts *)

(** The fields of the [KeyboardEvent] the handler reads. *)
Record KeyEvent : Type := mkKey {
  ctrlKey : bool;
  metaKey : bool;
  shiftKey : bool;
  key : string;
}.

(** [const handleKeyDown = (event: KeyboardEvent) => { ... }] of the
    keyboard effect: the flow handed to [onSave], if any, and the next
    state. *)
Definition handleKeyDown (readOnly : bool) (flow : option FlowData) (event : KeyEvent)
  (st : Editor) : M (option FlowData * Editor) :=
  if readOnly then ret (None, st)
  else
    run shortcut :=
      (if ctrlKey event || metaKey event then
         if decide (key event = "s") then
           run saved := handleSave flow st in ret (Some (saved.1), saved.2)
         else if decide (key event = "z") then
           ret (None, if shiftKey event then settle st (redo st)
                      else settle st (undo st))
         else if decide (key event = "y") then
           ret (None, settle st (redo st))
         else ret (None, st)
       else ret (None, st)) in
    ret (shortcut.1,
         match selectedNode st with
         | Some node =>
             if decide (key event = "Delete") then deleteNode (node_id node) st
             else shortcut.2
         | None => shortcut.2
         end).

End Builder.

(** ** FlowProperties.tsx *)

Module Properties.

Import Builder.

Section WithTrim.

(** [String.prototype.trim], whose set of white space is not modelled. *)
Variable trim : string → string.

(** The [(key, value)] pairs [updateProperty] is called with. *)
Inductive Update : Type :=
| SetName (value : string)
| SetDescription (value : string)
| SetVertical (value : string)
| SetVersion (value : string)
| SetStatus (value : FlowStatus)
| SetTags (value : list string).

(** [{ ...properties, [key]: value }] *)
Definition assign (u : Update) (p : FlowProperties) : FlowProperties :=
  match u with
  | SetName v => mkProps v (description p) (vertical p) (version p) (status p) (tags p)
  | SetDescription v => mkProps (name p) v (vertical p) (version p) (status p) (tags p)
  | SetVertical v => mkProps (name p) (description p) v (version p) (status p) (tags p)
  | SetVersion v => mkProps (name p) (description p) (vertical p) v (status p) (tags p)
  | SetStatus v => mkProps (name p) (description p) (vertical p) (version p) v (tags p)
  | SetTags v => mkProps (name p) (description p) (vertical p) (version p) (status p) v
  end.

(** [const updateProperty = (key, value) => { if (readOnly) return;
      onChange({ ...properties, [key]: value }) }]: the properties the
    parent holds afterwards. *)
Definition updateProperty (readOnly : bool) (u : Update) (properties : FlowProperties)
  : FlowProperties :=
  if readOnly then properties else assign u properties.

(** [const addTag = () => { ... }]: the properties and the [newTag] input
    afterwards. *)
Definition addTag (readOnly : bool) (newTag : string) (properties : FlowProperties)
  : FlowProperties * string :=
  if bool_decide (trim newTag ≠ "") && bool_decide (trim newTag ∉ tags properties) then
    (updateProperty readOnly (SetTags (tags properties ++ [trim newTag])) properties, "")
  else (properties, newTag).

(** [const removeTag = (tagToRemove: string) => { ... }] *)
Definition removeTag (readOnly : bool) (tagToRemove : string)
  (properties : FlowProperties) : FlowProperties :=
  updateProperty readOnly
    (SetTags (filter (λ tag, tag ≠ tagToRemove) (tags properties))) properties.

End WithTrim.

End Properties.

(** ** NodePalette.tsx *)

Module Palette.

(** [interface NodeType], without the icon, which is a React element. *)
Record NodeType : Type := mkNodeType {
  id : string;
  name : string;
  description : string;
  category : string;
  color : string;
  tags : list string;
}.

(** [const nodeTypes: NodeType[] = [...]]: the entries the palette offers;
    a click on one calls [onAddNode(node.id)], that is, the builder's
    [addNode]. *)
Definition nodeTypes : list NodeType := [
  mkNodeType "start" "Start" "Entry point for the flow"
    "Flow Control" "bg-green-100 text-green-700" ["entry"; "begin"];
  mkNodeType "end" "End" "Exit point for the flow"
    "Flow Control" "bg-red-100 text-red-700" ["exit"; "finish"];
  mkNodeType "condition" "Condition" "Branch flow based on conditions"
    "Flow Control" "bg-yellow-100 text-yellow-700" ["if"; "branch"; "decision"];
  mkNodeType "action" "Action" "Perform HTTP requests and API calls"
    "Actions" "bg-blue-100 text-blue-700" ["http"; "api"; "request"];
  mkNodeType "data" "Data" "Store and manipulate data"
    "Actions" "bg-purple-100 text-purple-700" ["variable"; "storage"; "transform"];
  mkNodeType "calculator" "Calculator" "Perform mathematical operations"
    "Actions" "bg-indigo-100 text-indigo-700" ["math"; "calculate"; "formula"];
  mkNodeType "timer" "Timer" "Add delays or schedule actions"
    "Actions" "bg-gray-100 text-gray-700" ["delay"; "schedule"; "wait"];
  mkNodeType "trigger" "Webhook" "Trigger flow via webhook"
    "Triggers" "bg-orange-100 text-orange-700" ["webhook"; "external"; "trigger"];
  mkNodeType "schedule" "Schedule" "Trigger flow on schedule"
    "Triggers" "bg-emerald-100 text-emerald-700" ["cron"; "schedule"; "periodic"];
  mkNodeType "event" "Event" "Trigger on system events"
    "Triggers" "bg-pink-100 text-pink-700" ["event"; "system"; "listener"];
  mkNodeType "notification" "Notification" "Send push notifications"
    "Communications" "bg-cyan-100 text-cyan-700" ["push"; "notify"; "alert"];
  mkNodeType "sms" "SMS" "Send SMS messages"
    "Communications" "bg-green-100 text-green-700" ["sms"; "text"; "message"];
  mkNodeType "email" "Email" "Send email messages"
    "Communications" "bg-blue-100 text-blue-700" ["email"; "mail"; "message"];
  mkNodeType "whatsapp" "WhatsApp" "Send WhatsApp messages"
    "Communications" "bg-green-100 text-green-700" ["whatsapp"; "wa"; "message"];
  mkNodeType "payment" "Payment" "Process UPI payments"
    "Payments" "bg-lime-100 text-lime-700" ["upi"; "payment"; "transaction"];
  mkNodeType "refund" "Refund" "Process payment refunds"
    "Payments" "bg-orange-100 text-orange-700" ["refund"; "reverse"; "payment"];
  mkNodeType "filter" "Filter" "Filter and transform data"
    "Utilities" "bg-teal-100 text-teal-700" ["filter"; "transform"; "data"];
  mkNodeType "random" "Random" "Generate random values"
    "Utilities" "bg-violet-100 text-violet-700" ["random"; "generate"; "value"];
  mkNodeType "code" "Code" "Execute custom JavaScript code"
    "Utilities" "bg-slate-100 text-slate-700" ["javascript"; "code"; "custom"];
  mkNodeType "http" "HTTP" "Make HTTP requests to external APIs"
    "Utilities" "bg-sky-100 text-sky-700" ["http"; "api"; "external"]].

(** The keys of [const nodeTypes: NodeTypes = { ... }] in FlowBuilder.tsx:
    the node types the builder has a component for. *)
Definition builderNodeTypes : list string :=
  ["start"; "end"; "action"; "condition"; "data"; "trigger"; "notification";
   "payment"].

End Palette.

(** ** The behaviour the specification describes

    These definitions follow the words of the specification, not the code:
    they are what the code is compared with. *)

Module Spec.

Import Sim.

(** *** Condition evaluation (specification, section 4.3, step 4) *)

(** The operator set [{equals, not_equals, greater_than, less_than,
    contains, exists}]. *)
Inductive Operator : Type :=
| equals | not_equals | greater_than | less_than | contains | exists_key.

Definition operator_of (v : JsValue) : option Operator :=
  match v with
  | JStr "equals" => Some equals
  | JStr "not_equals" => Some not_equals
  | JStr "greater_than" => Some greater_than
  | JStr "less_than" => Some less_than
  | JStr "contains" => Some contains
  | JStr "exists" => Some exists_key
  | _ => None
  end.

(** The run's variables: the trigger payload, here the test data. *)
Definition variables (data : SimulationData) (field : string) : option JsValue :=
  match field with
  | "orderId" => Some (JStr (orderId data))
  | "customerId" => Some (JStr (customerId data))
  | "merchantId" => Some (JStr (merchantId data))
  | "amount" => Some (JNum (amount data))
  | "customerPhone" => Some (JStr (customerPhone data))
  | "merchantPhone" => Some (JStr (merchantPhone data))
  | "timestamp" => Some (JStr (timestamp data))
  | _ => None
  end.

Fixpoint split_dot (s : string) : string * option string :=
  match s with
  | EmptyString => (EmptyString, None)
  | String "."%char rest => (EmptyString, Some rest)
  | String c rest => let (a, b) := split_dot rest in (String c a, b)
  end.

(** An unsigned decimal numeral [ddd] or [ddd.ddd] as a number. *)
Definition unsigned_of_string (s : string) : option Q :=
  let (whole, frac) := split_dot s in
  match NilEmpty.uint_of_string whole, frac with
  | Some i, None => Some (inject_Z (Z.of_uint i))
  | Some i, Some f =>
      match NilEmpty.uint_of_string f with
      | Some d =>
          Some (inject_Z (Z.of_uint i)
                + Qmake (Z.of_uint d) (Pos.of_nat (10 ^ Decimal.nb_digits d)))%Q
      | None => None
      end
  | None, _ => None
  end.

(** "Numeric comparisons coerce both sides to numbers when possible." *)
Definition to_number (v : JsValue) : option Q :=
  match v with
  | JNum q => Some q
  | JStr (String "-"%char rest) => Qopp <$> unsigned_of_string rest
  | JStr s => unsigned_of_string s
  | _ => None
  end.

Fixpoint is_substring (needle hay : string) : bool :=
  String.prefix needle hay
  || match hay with
     | EmptyString => false
     | String _ rest => is_substring needle rest
     end.

(** Equality of two scalar values, numerically when both are numbers. *)
Definition same_value (a b : JsValue) : bool :=
  match to_number a, to_number b with
  | Some x, Some y => Qeq_bool x y
  | _, _ =>
      match a, b with
      | JStr x, JStr y => String.eqb x y
      | JBool x, JBool y => Bool.eqb x y
      | JNull, JNull | JUndefined, JUndefined => true
      | _, _ => false
      end
  end.

(** [operator] over [variables[field]] against [value]; [contains] is
    substring or membership, [exists] is key presence whatever the value. *)
Definition holds (op : Operator) (var : option JsValue) (value : JsValue) : bool :=
  match op, var with
  | exists_key, v => bool_decide (is_Some v)
  | _, None => false
  | equals, Some v => same_value v value
  | not_equals, Some v => negb (same_value v value)
  | greater_than, Some v =>
      match to_number v, to_number value with
      | Some x, Some y => gt x y
      | _, _ => false
      end
  | less_than, Some v =>
      match to_number v, to_number value with
      | Some x, Some y => gt y x
      | _, _ => false
      end
  | contains, Some (JStr hay) =>
      match value with JStr needle => is_substring needle hay | _ => false end
  | contains, Some (JArr items) => existsb (λ x, same_value x value) items
  | contains, Some _ => false
  end.

(** The port a Condition node with data [d] takes on test data [data]:
    ['true'] when the predicate of [d.condition] holds, ['false']
    otherwise (and when the operator is not one of the set). *)
Definition condition_port (d : JsValue) (data : SimulationData) : string :=
  let c := get "condition" d in
  match operator_of (get "operator" c), get "field" c with
  | Some op, JStr field => bool_text (holds op (variables data field) (get "value" c))
  | _, _ => "false"
  end.

(** C1 as the specification states it, for one execution of a Condition
    node: the branch reported is the port computed from the variables and
    the node's condition. *)
Definition branch_follows_config (n : Node) (data : SimulationData) (w : World)
  : Prop :=
  get "branch" (res_output (simulateNodeExecution (Some n) data w).1)
  = JStr (condition_port (node_data n) data).

(** *** Runs *)

(** The status recorded for the node [id] (for its first step, should two
    nodes share the id). *)
Definition status_of (steps : list ExecutionStep) (id : string) : option StepStatus :=
  (λ r, Sim.status r.2) <$> list_find (λ s, nodeId s = id) steps.

(** The node [id] was executed: its step was sealed, completed or failed. *)
Definition ran (steps : list ExecutionStep) (id : string) : Prop :=
  status_of steps id = Some completed ∨ status_of steps id = Some failed.

(** An edge leaving [source] on the port [port]. *)
Definition leaves (e : Edge) (source port : string) : Prop :=
  edge_source e = source ∧ edge_sourceHandle e = Some port.

(** The node [id] has an edge on a failure port (['failure'] in the
    specification, ['failed'] on the Payment node's handle). *)
Definition has_failure_edge (edges : list Edge) (id : string) : bool :=
  existsb (λ e, bool_decide (edge_source e = id)
                && (bool_decide (edge_sourceHandle e = Some "failure")
                    || bool_decide (edge_sourceHandle e = Some "failed"))) edges.

(** C2 as the specification states it: once a step is sealed failed and
    its node has no failure edge, no later step is executed. *)
Definition halts_after_failure (edges : list Edge) (steps : list ExecutionStep)
  : Prop :=
  ∀ (i j : nat) (s s' : ExecutionStep),
    steps !! i = Some s → Sim.status s = failed →
    has_failure_edge edges (nodeId s) = false →
    (i < j)%nat → steps !! j = Some s' → Sim.status s' = pending.

(** C3 as the specification states it: of the targets of a Condition
    node's ['true'] and ['false'] edges, one is completed and the other
    skipped. *)
Definition condition_exclusive (nodes : list Node) (edges : list Edge)
  (steps : list ExecutionStep) : Prop :=
  ∀ c et ef,
    c ∈ nodes → node_type c = Some "condition" →
    et ∈ edges → leaves et (node_id c) "true" →
    ef ∈ edges → leaves ef (node_id c) "false" →
    (status_of steps (edge_target et) = Some completed
     ∧ status_of steps (edge_target ef) = Some skipped)
    ∨ (status_of steps (edge_target et) = Some skipped
       ∧ status_of steps (edge_target ef) = Some completed).

(** C4 as the specification states it, for the name [failurePort] of the
    failure port: the targets of a Payment node's two edges are never both
    executed. *)
Definition payment_exclusive (failurePort : string) (nodes : list Node)
  (edges : list Edge) (steps : list ExecutionStep) : Prop :=
  ∀ p es ef,
    p ∈ nodes → node_type p = Some "payment" →
    es ∈ edges → leaves es (node_id p) "success" →
    ef ∈ edges → leaves ef (node_id p) failurePort →
    ¬ (ran steps (edge_target es) ∧ ran steps (edge_target ef)).

(** What C6 compares between two runs: per step, in order, the node, the
    status and the output. *)
Definition record_of (s : ExecutionStep) : string * StepStatus * option JsValue :=
  (nodeId s, Sim.status s, output s).

(** Reset, then replay: Stop, Play, and auto-play through every step. *)
Definition replay (n : nat) : list Op := Stop :: Play :: playThrough n.

(** C6 as the specification states it: after a full run that ended in the
    world [w], resetting and replaying gives the records of the first
    run. *)
Definition replay_repeats (nodes : list Node) (edges : list Edge)
  (data : SimulationData) (w : World) : Prop :=
  let first := fullRun nodes edges data w in
  let second := applyAll (replay (length nodes)) first.1 first.2 in
  record_of <$> executionSteps (state second.1)
  = record_of <$> executionSteps (state first.1).

(** *** Validation (specification, section 4.2) *)

Definition count_type (ty : string) (nodes : list Node) : nat :=
  length (filter (λ n, node_type n = Some ty) nodes).

(** Modelled from the spec: the repository has no validator. These are its
    fatal structural checks (a) "exactly one Start, at least one End" and
    (b) "every node id referenced by an edge exists"; a flow that fails one
    of them has a fatal error whatever the remaining checks say. *)
Definition structurally_valid (nodes : list Node) (edges : list Edge) : bool :=
  bool_decide (count_type "start" nodes = 1%nat)
  && bool_decide (1 ≤ count_type "end" nodes)%nat
  && forallb (λ e, bool_decide (edge_source e ∈ node_id <$> nodes)
                   && bool_decide (edge_target e ∈ node_id <$> nodes)) edges.

(** C5 as the specification states it: a publish that makes the flow
    active was of a flow that passes validation. *)
Definition publish_is_gated (flow : option Builder.FlowData) (st : Builder.Editor)
  (w : World) : Prop :=
  let '(flowData, st') := (Builder.handlePublish flow st w).1 in
  Builder.flow_status flowData = Builder.active
  ∨ Builder.status (Builder.flowProperties st') = Builder.active →
  structurally_valid (Builder.nodes st) (Builder.edges st) = true.

(** C10 as the specification states it: after [undo] and then [redo] the
    editor graph is the graph before the [undo]. *)
Definition undo_redo_roundtrip (st : Builder.Editor) : Prop :=
  let undone := settle st (Builder.undo st) in
  let redone := settle undone (Builder.redo undone) in
  Builder.nodes redone = Builder.nodes st ∧ Builder.edges redone = Builder.edges st.

End Spec.

(** ** Concrete flows used as witnesses and counterexamples *)

Module Sample.

Import Sim.

Definition data : SimulationData :=
  mkData "ORD-1" "CUST-1" "MERCH-1" (491 # 2) [] "+91 98765 43210"
         "+91 87654 32109" "2024-01-01T00:00:00.000Z".

(** A world whose every draw is [q] and whose clock counts its reads. *)
Definition constant (q : Q) : World := mkWorld (λ _, q) 0 Z.of_nat 0.

(** A world whose draws are [1/2] except the draw number [k], which is
    [q]. *)
Definition except (k : nat) (q : Q) : World :=
  mkWorld (λ n, if bool_decide (n = k) then q else 1 # 2) 0 Z.of_nat 0.

Definition node (id ty : string) : Node :=
  mkNode id (Some ty) (0, 0)%Q (Builder.getDefaultNodeData ty).

Definition edge (id source target : string) (port : option string) : Edge :=
  mkEdge id source target port.

(** Condition "amount > 200", as the editor stores it. *)
Definition amount_over_200 : Node :=
  mkNode "condition-1" (Some "condition") (0, 0)%Q
    (JObj [("label", JStr "Condition");
           ("condition", JObj [("field", JStr "amount");
                               ("operator", JStr "greater_than");
                               ("value", JNum 200)])]).

(** Start, then a Condition with one target per port. *)
Definition branching_nodes : list Node :=
  [node "start-1" "start"; amount_over_200;
   node "payment-1" "payment"; node "end-1" "end"].

Definition branching_edges : list Edge :=
  [edge "e1" "start-1" "condition-1" None;
   edge "e2" "condition-1" "payment-1" (Some "true");
   edge "e3" "condition-1" "end-1" (Some "false")].

(** Start, then a Payment with one target per port; [port] names the
    failure port. *)
Definition payment_nodes : list Node :=
  [node "start-1" "start"; node "payment-1" "payment";
   node "notification-1" "notification"; node "end-1" "end"].

Definition payment_edges (port : string) : list Edge :=
  [edge "e1" "start-1" "payment-1" None;
   edge "e2" "payment-1" "notification-1" (Some "success");
   edge "e3" "payment-1" "end-1" (Some port)].

(** Start, an Action, End, in a line. *)
Definition line_nodes : list Node :=
  [node "start-1" "start"; node "action-1" "action"; node "end-1" "end"].

Definition line_edges : list Edge :=
  [edge "e1" "start-1" "action-1" None; edge "e2" "action-1" "end-1" None].

(** Stand-ins for the conversions whose characters are not modelled. *)
Definition spelled : Mem.Builtins :=
  {| Mem.toString36 := λ _, "k3j9x2m1p";
     Mem.toISOString := λ _, "2024-01-01T00:00:00.000Z";
     Mem.number_text := λ _, "245.5";
     Mem.object_text := λ _ _, "[object Object]";
     Mem.characters := λ _, [] |}.

(** A heap that holds a flow of two nodes and one edge, the test data, and
    the empty array of the first render: [nodes] is the array at cell 4 and
    [edges] the array at cell 6. *)
Definition flow_heap : list Mem.Cell :=
  [Mem.Object [("label", Mem.VStr "Start")];
   Mem.Object [("id", Mem.VStr "start-1"); ("type", Mem.VStr "start");
               ("data", Mem.VRef 0)];
   Mem.Object [("label", Mem.VStr "Payment"); ("amount", Mem.VStr "{{amount}}")];
   Mem.Object [("id", Mem.VStr "payment-1"); ("type", Mem.VStr "payment");
               ("data", Mem.VRef 2)];
   Mem.Array [Mem.VRef 1; Mem.VRef 3];
   Mem.Object [("id", Mem.VStr "e1"); ("source", Mem.VStr "start-1");
               ("target", Mem.VStr "payment-1")];
   Mem.Array [Mem.VRef 5];
   Mem.Object [("orderId", Mem.VStr "ORD-1"); ("amount", Mem.VNum (491 # 2));
               ("customerPhone", Mem.VStr "+91 98765 43210")];
   Mem.Array []].

Definition flow_store : Mem.Store := Mem.mkStore flow_heap (constant (1 # 2)).

(** The state of the first render on that heap. *)
Definition flow_state : Mem.State :=
  Mem.mkState (Mem.VRef 8) 0 (Mem.VRef 7) false 1 Mem.VNull [].

(** What the two arrays spell out. *)
Definition flow_nodes : JsValue :=
  JArr [JObj [("id", JStr "start-1"); ("type", JStr "start");
              ("data", JObj [("label", JStr "Start")])];
        JObj [("id", JStr "payment-1"); ("type", JStr "payment");
              ("data", JObj [("label", JStr "Payment");
                             ("amount", JStr "{{amount}}")])]].

Definition flow_edges : JsValue :=
  JArr [JObj [("id", JStr "e1"); ("source", JStr "start-1");
              ("target", JStr "payment-1")]].

End Sample.

(** ** Facts about the simulator *)

Module SimFacts.

Import Sim.

(** *** Updating one step *)

Lemma length_map_at i f prev : length (map_at i f prev) = length prev.
Proof. unfold map_at. by rewrite length_imap. Qed.

Lemma lookup_map_at i f prev (j : nat) :
  map_at i f prev !! j
  = (λ step, if bool_decide (Z.of_nat j = i) then f step else step) <$> prev !! j.
Proof. unfold map_at. by rewrite list_lookup_imap. Qed.

Lemma at_index_nat {A} (l : list A) (j : nat) : at_index l (Z.of_nat j) = l !! j.
Proof.
  unfold at_index. rewrite bool_decide_eq_false_2 by lia. by rewrite Nat2Z.id.
Qed.

Lemma at_index_Some {A} (l : list A) i x :
  at_index l i = Some x → 0 ≤ i ∧ l !! Z.to_nat i = Some x.
Proof. unfold at_index. case_bool_decide; [done | intros; split; [lia | done]]. Qed.

Lemma at_index_map_at i f prev :
  at_index (map_at i f prev) i = f <$> at_index prev i.
Proof.
  unfold at_index. case_bool_decide; [done|]. rewrite lookup_map_at.
  destruct (prev !! Z.to_nat i); cbn; [|done].
  by rewrite bool_decide_eq_true_2 by lia.
Qed.

Lemma fmap_reset_map_at i f prev :
  (∀ step, reset_step (f step) = reset_step step) →
  reset_step <$> map_at i f prev = reset_step <$> prev.
Proof.
  intros Hf. apply list_eq. intros j.
  rewrite !list_lookup_fmap, lookup_map_at.
  destruct (prev !! j) as [step|]; simpl; [|done].
  case_bool_decide; by rewrite ?Hf.
Qed.

Lemma reset_start_step now step : reset_step (start_step now step) = reset_step step.
Proof. done. Qed.

Lemma reset_seal_step success dur result now step :
  reset_step (seal_step success dur result now step) = reset_step step.
Proof. done. Qed.

Lemma reset_initial_steps nodes :
  reset_step <$> initial_steps nodes = initial_steps nodes.
Proof.
  apply list_eq. intros j. unfold initial_steps.
  rewrite list_lookup_fmap, list_lookup_imap. by destruct (nodes !! j).
Qed.

(** *** C8: what [stopSimulation] leaves *)

(** C8. After [stopSimulation], from any state whatever: the current step
    index is 0, there is still one record per step, and every record has
    status ['pending'], no [startTime], [endTime], [duration], [output] or
    [error], and empty [logs]. *)
Theorem stopSimulation_resets (st : State) :
  currentStepIndex (stopSimulation st) = 0
  ∧ nodeId <$> executionSteps (stopSimulation st) = nodeId <$> executionSteps st
  ∧ ∀ (i : nat) (step : ExecutionStep),
      executionSteps (stopSimulation st) !! i = Some step →
      status step = pending ∧ startTime step = None ∧ endTime step = None
      ∧ duration step = None ∧ output step = None ∧ error step = None
      ∧ logs step = [].
Proof.
  split; [done|]. split.
  - simpl. rewrite <- list_fmap_compose. by apply list_fmap_ext.
  - intros i step. simpl. rewrite list_lookup_fmap.
    destruct (executionSteps st !! i) as [old|]; simpl; [|done].
    by intros [= <-].
Qed.

(** *** The mounted simulator keeps its props *)

Lemma apply_props op m w :
  nodes (apply op m w).1 = nodes m ∧ edges (apply op m w).1 = edges m.
Proof. unfold apply, bind, ret. by destruct (step_op _ _ _ _). Qed.

(** *** Computations read the world only through its coming values *)

Lemma respects_ret {A} (a : A) : respects (ret a).
Proof. by intros w w' Hw. Qed.

Lemma respects_bind {A B} (m : M A) (k : A → M B) :
  respects m → (∀ a, respects (k a)) → respects (bind m k).
Proof.
  intros Hm Hk w w' Hw. unfold bind.
  destruct (Hm w w' Hw) as [Hval Hnext].
  destruct (m w) as [a w1], (m w') as [a' w1']; simpl in *; subst a'.
  by apply Hk.
Qed.

Lemma respects_random : respects Math_random.
Proof.
  intros w w' [Hr Hc]. split; simpl.
  - specialize (Hr 0%nat). by rewrite !Nat.add_0_r in Hr.
  - split; simpl; [|done]. intros k. specialize (Hr (S k)).
    by rewrite !Nat.add_succ_r in Hr.
Qed.

Lemma respects_now : respects Date_now.
Proof.
  intros w w' [Hr Hc]. split; simpl.
  - specialize (Hc 0%nat). by rewrite !Nat.add_0_r in Hc.
  - split; simpl; [done|]. intros k. specialize (Hc (S k)).
    by rewrite !Nat.add_succ_r in Hc.
Qed.

Ltac respects_step :=
  first [ apply respects_ret | apply respects_random | apply respects_now
        | apply respects_bind; [|intros ?] ].

Lemma respects_simulateNodeExecution node data :
  respects (simulateNodeExecution node data).
Proof.
  unfold simulateNodeExecution.
  repeat first [ respects_step | case_match | case_decide ].
Qed.


Lemma respects_executeNextStep nodes st : respects (executeNextStep nodes st).
Proof.
  unfold executeNextStep.
  repeat first [ respects_step | case_match | case_bool_decide ].
Qed.

Lemma respects_stepTimeout p st : respects (stepTimeout p st).
Proof.
  unfold stepTimeout.
  repeat first [ apply respects_simulateNodeExecution | respects_step | case_match ].
Qed.

Lemma respects_step_op nodes op st : respects (step_op nodes op st).
Proof.
  destruct op; simpl;
    repeat first [ apply respects_executeNextStep | apply respects_stepTimeout
                 | respects_step | case_match ].
Qed.

Lemma respects_runOps nodes ops st : respects (runOps nodes ops st).
Proof.
  revert st. induction ops as [|op ops IH]; intros st; simpl.
  - apply respects_ret.
  - apply respects_bind; [apply respects_step_op | done].
Qed.

(** *** The mounted simulator runs [runOps] on its state *)

Lemma applyAll_runOps ops m w :
  state (applyAll ops m w).1 = (runOps (nodes m) ops (state m) w).1
  ∧ (applyAll ops m w).2 = (runOps (nodes m) ops (state m) w).2.
Proof.
  revert m w. induction ops as [|op ops IH]; intros m w; [done|].
  simpl. unfold bind, apply, bind, ret.
  destruct (step_op (nodes m) op (state m) w) as [st' w'].
  by destruct (IH (mkMounted (nodes m) (edges m)
                     (match op with Stop => false | _ => isSimulating m end) st') w').
Qed.

Lemma runOps_app nodes ops1 ops2 st w :
  runOps nodes (ops1 ++ ops2) st w
  = runOps nodes ops2 (runOps nodes ops1 st w).1 (runOps nodes ops1 st w).2.
Proof.
  revert st w. induction ops1 as [|op ops1 IH]; intros st w; [done|].
  simpl. unfold bind. destruct (step_op nodes op st w) as [st' w']. apply IH.
Qed.

(** *** One round of auto-play *)

Lemma executeNextStep_in_range nodes st w (k : nat) step :
  currentStepIndex st = Z.of_nat k →
  executionSteps st !! k = Some step →
  ∃ now node delay,
    (executeNextStep nodes st w).1
    = Done (with_timeouts (λ ts, ts ++ [mkPending (Z.of_nat k) node (simulationData st) delay])
              (with_steps (map_at (Z.of_nat k) (start_step now)) st)).
Proof.
  intros Hk Hstep. unfold executeNextStep. rewrite Hk.
  apply lookup_lt_Some in Hstep as Hlt.
  rewrite bool_decide_eq_false_2 by lia.
  rewrite at_index_nat, Hstep. cbv [bind ret Date_now Math_random]. simpl. eauto.
Qed.

Lemma stepTimeout_in_range p st w (k : nat) step :
  p_index p = Z.of_nat k →
  executionSteps st !! k = Some step →
  ∃ dur result now,
    (stepTimeout p st w).1
    = with_index (λ prev, prev + 1)
        (with_steps (λ _, map_at (Z.of_nat k)
                            (seal_step (gt (random_src w (random_calls w)) (1 # 10))
                                       dur result now)
                            (executionSteps st)) st).
Proof.
  intros Hk Hstep. unfold stepTimeout. rewrite Hk, at_index_nat, Hstep.
  cbv [bind ret Date_now Math_random].
  destruct (simulateNodeExecution _ _ _) as [result w']. simpl. eauto.
Qed.

Lemma visited_length nodes st0 k st :
  visited nodes st0 k st → length (executionSteps st) = length nodes.
Proof.
  intros (_ & _ & _ & Hreset & _).
  apply (f_equal length) in Hreset. unfold initial_steps in Hreset.
  by rewrite length_fmap, length_imap in Hreset.
Qed.

Lemma visited_round nodes st0 k st w :
  visited nodes st0 k st → (k < length nodes)%nat →
  visited nodes st0 (S k) (runOps nodes [AutoPlay; Fire 0] st w).1.
Proof.
  intros Hv Hk. pose proof (visited_length _ _ _ _ Hv) as Hlen.
  destruct Hv as (Hidx & Hplay & Hto & Hreset & Hdata & Hspeed & Hsel & Hdone & Htodo).
  destruct (lookup_lt_is_Some_2 (executionSteps st) k) as [step Hstep]; [lia|].
  simpl. unfold bind at 1.
  assert (autoPlay_armed st = true) as ->.
  { unfold autoPlay_armed. rewrite Hplay, bool_decide_eq_false_2 by lia. done. }
  unfold bind at 1.
  destruct (executeNextStep_in_range nodes st w k step Hidx Hstep)
    as (now & node & delay & Hexec).
  destruct (executeNextStep nodes st w) as [o w1]. simpl in Hexec. subst o.
  cbn [ret settle]. unfold bind at 1. cbn [timeouts with_timeouts with_steps].
  rewrite Hto. cbn [app lookup list_lookup].
  set (st1 := with_timeouts _ _).
  assert (executionSteps st1 !! k = Some (start_step now step)) as Hstep1.
  { subst st1. cbn. rewrite lookup_map_at, Hstep. cbn.
    by rewrite bool_decide_eq_true_2. }
  destruct (stepTimeout_in_range
              (mkPending (Z.of_nat k) node (simulationData st) delay) st1 w1 k _
              eq_refl Hstep1) as (dur & result & now' & Hfire).
  destruct (stepTimeout _ st1 w1) as [st2 w2]. simpl in Hfire. subst st2 st1.
  cbn [ret fst]. repeat split.
  all: cbn [currentStepIndex isPlaying timeouts executionSteps simulationData
            playbackSpeed selectedStep with_index with_steps with_timeouts].
  all: try done.
  - lia.
  - by rewrite Hto.
  - by rewrite !fmap_reset_map_at.
  - intros i s. rewrite !lookup_map_at.
    destruct (executionSteps st !! i) as [old|] eqn:Hold; [|done]. cbn.
    case_bool_decide as Hi.
    + intros [= <-] _. cbn. destruct (gt _ _); [by left | by right].
    + intros [= <-] Hlt. apply (Hdone i); [done | lia].
  - intros i s. rewrite !lookup_map_at.
    destruct (executionSteps st !! i) as [old|] eqn:Hold; [|done]. cbn.
    case_bool_decide as Hi; [lia|].
    intros [= <-] Hle. apply (Htodo i); [done | lia].
Qed.


Lemma visited_start nodes data :
  let st0 := start_state nodes data in
  visited nodes st0 0 (startSimulation st0).
Proof.
  intros st0. unfold startSimulation. case_bool_decide; repeat split.
  all: cbn [currentStepIndex isPlaying timeouts executionSteps simulationData
            playbackSpeed selectedStep with_index with_steps with_playing
            st0 start_state initialize first_render].
  all: try done; try (intros; lia).
  - rewrite <- list_fmap_compose.
    rewrite <- (reset_initial_steps nodes) at 2. by apply list_fmap_ext.
  - intros i s. rewrite list_lookup_fmap.
    destruct (initial_steps nodes !! i); [|done]. by intros [= <-].
  - apply reset_initial_steps.
  - intros i s. unfold initial_steps. rewrite list_lookup_imap.
    destruct (nodes !! i); [|done]. by intros [= <-].
Qed.

Lemma visited_playThrough nodes st0 (n k : nat) st w :
  visited nodes st0 k st → (k + n ≤ length nodes)%nat →
  visited nodes st0 (k + n) (runOps nodes (playThrough n) st w).1.
Proof.
  revert k st w. induction n as [|n IH]; intros k st w Hv Hk.
  - by rewrite Nat.add_0_r.
  - change (playThrough (S n)) with ([AutoPlay; Fire 0] ++ playThrough n).
    rewrite runOps_app, Nat.add_succ_r, <- Nat.add_succ_l.
    apply IH; [|lia]. apply visited_round; [done | lia].
Qed.

(** After a full run every step was visited. *)
Lemma fullRun_visited nodes edges data w :
  visited nodes (start_state nodes data) (length nodes)
          (state (fullRun nodes edges data w).1).
Proof.
  unfold fullRun. destruct (applyAll_runOps (Play :: playThrough (length nodes))
                              (mount nodes edges data) w) as [-> _].
  change (length nodes) with (0 + length nodes)%nat at 1.
  apply (visited_playThrough nodes _ (length nodes) 0); [|done].
  apply visited_start.
Qed.

Lemma visited_nodeIds nodes st0 k st :
  visited nodes st0 k st → nodeId <$> executionSteps st = node_id <$> nodes.
Proof.
  intros (_ & _ & _ & Hreset & _).
  transitivity (nodeId <$> (reset_step <$> executionSteps st)).
  - rewrite <- list_fmap_compose. by apply list_fmap_ext.
  - rewrite Hreset. apply list_eq. intros i. unfold initial_steps.
    rewrite !list_lookup_fmap, list_lookup_imap. by destruct (nodes !! i).
Qed.

(** Every node of the flow was executed by a full run. *)
Lemma fullRun_ran nodes edges data w id :
  id ∈ node_id <$> nodes →
  Spec.ran (executionSteps (state (fullRun nodes edges data w).1)) id.
Proof.
  intros Hid. pose proof (fullRun_visited nodes edges data w) as Hv.
  set (st := state (fullRun nodes edges data w).1) in *.
  rewrite <- (visited_nodeIds _ _ _ _ Hv) in Hid.
  apply list_elem_of_fmap in Hid as (s & -> & Hs).
  destruct (list_find_elem_of (λ s', nodeId s' = nodeId s) _ s Hs eq_refl)
    as [[i found] Hfound].
  unfold Spec.ran, Spec.status_of. rewrite Hfound. cbn.
  apply list_find_Some in Hfound as (Hlook & _ & _).
  apply lookup_lt_Some in Hlook as Hlt.
  rewrite (visited_length _ _ _ _ Hv) in Hlt.
  destruct Hv as (_ & _ & _ & _ & _ & _ & _ & Hdone & _).
  destruct (Hdone i found Hlook Hlt) as [-> | ->]; [by left | by right].
Qed.

(** No step of a full run is marked skipped, or left pending or running. *)
Lemma fullRun_sealed nodes edges data w s :
  s ∈ executionSteps (state (fullRun nodes edges data w).1) →
  status s = completed ∨ status s = failed.
Proof.
  intros Hs. pose proof (fullRun_visited nodes edges data w) as Hv.
  apply list_elem_of_lookup in Hs as [i Hi].
  apply lookup_lt_Some in Hi as Hlt. rewrite (visited_length _ _ _ _ Hv) in Hlt.
  destruct Hv as (_ & _ & _ & _ & _ & _ & _ & Hdone & _). by apply (Hdone i).
Qed.


Lemma applyAll_nodes ops m w : nodes (applyAll ops m w).1 = nodes m.
Proof.
  revert m w. induction ops as [|op ops IH]; intros m w; [done|].
  simpl. unfold bind. destruct (apply op m w) as [m' w'] eqn:Happly.
  rewrite IH. pose proof (apply_props op m w) as [Hn _]. by rewrite Happly in Hn.
Qed.

(** [stopSimulation] after a full run gives back the state the run started
    from. *)
Lemma stop_after_visit nodes data k st :
  visited nodes (start_state nodes data) k st →
  stopSimulation st = start_state nodes data.
Proof.
  intros (_ & _ & Hto & Hreset & Hdata & Hspeed & Hsel & _).
  unfold stopSimulation, with_steps, with_index, with_playing. cbn.
  rewrite Hto, Hdata, Hspeed, Hsel.
  change (map reset_step (executionSteps st)) with (reset_step <$> executionSteps st).
  by rewrite Hreset.
Qed.

(** *** C1: the branch of a Condition step *)

(** C1, amended. For a node of type ['condition'], whatever its condition
    config and whatever the test data, [simulateNodeExecution] reports
    [condition = (r > 0.5)] for the next draw [r] of [Math.random()] and
    [branch] ['true'] or ['false'] accordingly, and logs the fixed text
    "amount > 200". *)
Theorem condition_branch_is_drawn (n : Node) (data : SimulationData) (w : World) :
  node_type n = Some "condition" →
  let condition := gt (random_src w (random_calls w)) (1 # 2) in
  (simulateNodeExecution (Some n) data w).1
  = mkResult (JObj [("condition", JBool condition);
                    ("branch", JStr (bool_text condition))])
             None
             [Log "Evaluating condition: amount > 200";
              Log ("Condition result: " +:+ bool_text condition)].
Proof. intros Hty. unfold simulateNodeExecution. cbn zeta. by rewrite Hty. Qed.

Lemma condition_branch_is_drawn_witness :
  node_type Sample.amount_over_200 = Some "condition"
  ∧ (simulateNodeExecution (Some Sample.amount_over_200) Sample.data
       (Sample.constant (3 # 10))).1
    = mkResult (JObj [("condition", JBool false); ("branch", JStr "false")])
               None
               [Log "Evaluating condition: amount > 200";
                Log "Condition result: false"].
Proof.
  split; [reflexivity|].
  exact (condition_branch_is_drawn Sample.amount_over_200 Sample.data
           (Sample.constant (3 # 10)) eq_refl).
Defined.

(** C1 fails as stated: the node holds "amount > 200", the amount is 245.5,
    and with a draw of 0.3 the branch reported is ['false']. *)
Lemma condition_branch_ignores_config :
  ¬ Spec.branch_follows_config Sample.amount_over_200 Sample.data
      (Sample.constant (3 # 10)).
Proof. intros H. vm_compute in H. discriminate H. Qed.

(** *** C2: a failed step *)

(** C2, amended. When the timeout of a step fires with a success draw that
    is not above 0.1, the step is sealed ['failed'], the current step index
    still advances by one and [isPlaying] stays set; the auto-play timer
    that fires next starts the following step (['running']). Whether the
    failed node has a failure edge plays no part. *)
Theorem run_continues_after_failure
  (nodes : list Node) (st : State) (p : Pending) (w : World) :
  gt (random_src w (random_calls w)) (1 # 10) = false →
  is_Some (at_index (executionSteps st) (p_index p)) →
  isPlaying st = true →
  0 ≤ currentStepIndex st + 1 < Z.of_nat (length (executionSteps st)) →
  let sealed := stepTimeout p st w in
  let next := step_op nodes AutoPlay sealed.1 sealed.2 in
  status <$> at_index (executionSteps sealed.1) (p_index p) = Some failed
  ∧ currentStepIndex sealed.1 = currentStepIndex st + 1
  ∧ isPlaying sealed.1 = true
  ∧ status <$> at_index (executionSteps next.1) (currentStepIndex st + 1)
    = Some running.
Proof.
  intros Hdraw [step Hat] Hplay Hnext sealed next.
  apply at_index_Some in Hat as Hstep. destruct Hstep as [Hpos Hstep].
  destruct (stepTimeout_in_range p st w (Z.to_nat (p_index p)) step)
    as (dur & result & now & Hsealed); [lia | done |].
  rewrite Z2Nat.id, Hdraw in Hsealed by done.
  subst next. fold sealed in Hsealed. destruct sealed as [st1 w1].
  cbn [fst snd] in *. subst st1.
  cbn [executionSteps currentStepIndex isPlaying with_index with_steps].
  split; [|split; [done|split; [done|]]].
  - by rewrite at_index_map_at, Hat.
  - set (st1 := with_index _ _).
    assert (length (executionSteps st1) = length (executionSteps st)) as Hlen
      by apply length_map_at.
    destruct (lookup_lt_is_Some_2 (executionSteps st1)
                (Z.to_nat (currentStepIndex st + 1))) as [following Hfollowing];
      [lia|].
    cbn [step_op]. unfold autoPlay_armed.
    assert (currentStepIndex st1 = Z.of_nat (Z.to_nat (currentStepIndex st + 1)))
      as Hidx by (cbn; lia).
    assert (isPlaying st1 = true) as -> by done.
    rewrite bool_decide_eq_false_2 by (rewrite Hlen, Hidx; lia).
    cbn [andb negb]. unfold bind at 1.
    destruct (executeNextStep_in_range nodes st1 w1 _ following Hidx Hfollowing)
      as (now' & node & delay & Hexec).
    destruct (executeNextStep nodes st1 w1) as [o w2]. cbn [fst] in Hexec. subst o.
    cbn [ret fst settle executionSteps with_timeouts with_steps].
    rewrite Z2Nat.id, at_index_map_at by lia.
    rewrite <- (Z2Nat.id (currentStepIndex st + 1)) by lia.
    by rewrite at_index_nat, Hfollowing.
Qed.

(** A line of three steps in which the first was started and its success
    draw is 0. *)
Lemma run_continues_after_failure_witness :
  let st := (runOps Sample.line_nodes [Play; AutoPlay]
               (start_state Sample.line_nodes Sample.data) (Sample.constant 0)).1 in
  let p := mkPending 0 (Some (Sample.node "start-1" "start")) Sample.data 500 in
  let sealed := stepTimeout p st (Sample.constant 0) in
  let next := step_op Sample.line_nodes AutoPlay sealed.1 sealed.2 in
  status <$> at_index (executionSteps sealed.1) 0 = Some failed
  ∧ currentStepIndex sealed.1 = 1
  ∧ isPlaying sealed.1 = true
  ∧ status <$> at_index (executionSteps next.1) 1 = Some running.
Proof.
  intros st p.
  refine (run_continues_after_failure Sample.line_nodes st p (Sample.constant 0)
            _ _ _ _).
  - reflexivity.
  - vm_compute. eexists. reflexivity.
  - reflexivity.
  - vm_compute. split; [discriminate | reflexivity].
Defined.

(** C2 fails as stated: in a line Start, Action, End with no failure edge,
    the Action step is sealed failed (its success draw is 0) and the End
    step is executed after it. *)
Lemma run_does_not_halt_after_failure :
  ¬ Spec.halts_after_failure Sample.line_edges
      (executionSteps
         (state (fullRun Sample.line_nodes Sample.line_edges Sample.data
                   (Sample.except 4 0)).1)).
Proof.
  intros H.
  set (steps := executionSteps _) in H.
  destruct (steps !! 1%nat) as [s|] eqn:Hs; [|by vm_compute in Hs].
  destruct (steps !! 2%nat) as [s'|] eqn:Hs'; [|by vm_compute in Hs'].
  specialize (H 1%nat 2%nat s s' Hs).
  vm_compute in Hs. injection Hs as <-.
  vm_compute in Hs'. injection Hs' as <-.
  specialize (H eq_refl eq_refl ltac:(lia) eq_refl). discriminate H.
Qed.

(** *** C3 and C4: the targets of a branching node *)

(** C3, amended. In a full run, the nodes targeted by a Condition node's
    ['true'] and ['false'] edges are both executed (each sealed completed or
    failed), and no step of the run is marked ['skipped']. *)
Theorem condition_targets_both_run
  (nodes : list Node) (edges : list Edge) (data : SimulationData) (w : World)
  (c : Node) (et ef : Edge) :
  c ∈ nodes → node_type c = Some "condition" →
  et ∈ edges → Spec.leaves et (node_id c) "true" →
  ef ∈ edges → Spec.leaves ef (node_id c) "false" →
  edge_target et ∈ node_id <$> nodes →
  edge_target ef ∈ node_id <$> nodes →
  let steps := executionSteps (state (fullRun nodes edges data w).1) in
  Spec.ran steps (edge_target et)
  ∧ Spec.ran steps (edge_target ef)
  ∧ ∀ s, s ∈ steps → status s ≠ skipped.
Proof.
  intros _ _ _ _ _ _ Ht Hf steps. repeat split.
  - by apply fullRun_ran.
  - by apply fullRun_ran.
  - intros s Hs. by destruct (fullRun_sealed _ _ _ _ s Hs) as [-> | ->].
Qed.

Lemma condition_targets_both_run_witness :
  let steps :=
    executionSteps
      (state (fullRun Sample.branching_nodes Sample.branching_edges Sample.data
                (Sample.constant (1 # 2))).1) in
  Spec.ran steps "payment-1"
  ∧ Spec.ran steps "end-1"
  ∧ ∀ s, s ∈ steps → status s ≠ skipped.
Proof.
  refine (condition_targets_both_run
            Sample.branching_nodes Sample.branching_edges Sample.data
            (Sample.constant (1 # 2)) Sample.amount_over_200
            (Sample.edge "e2" "condition-1" "payment-1" (Some "true"))
            (Sample.edge "e3" "condition-1" "end-1" (Some "false"))
            _ _ _ _ _ _ _ _).
  all: first [ reflexivity | split; reflexivity | repeat constructor ].
Defined.

(** C3 fails as stated: with every draw 0.5 both targets of the Condition
    are completed and none is skipped. *)
Lemma condition_targets_not_exclusive :
  ¬ Spec.condition_exclusive Sample.branching_nodes Sample.branching_edges
      (executionSteps
         (state (fullRun Sample.branching_nodes Sample.branching_edges Sample.data
                   (Sample.constant (1 # 2))).1)).
Proof.
  intros H.
  assert (Sample.amount_over_200 ∈ Sample.branching_nodes) as Hc
    by repeat constructor.
  assert (Sample.edge "e2" "condition-1" "payment-1" (Some "true")
          ∈ Sample.branching_edges) as Het by repeat constructor.
  assert (Sample.edge "e3" "condition-1" "end-1" (Some "false")
          ∈ Sample.branching_edges) as Hef by repeat constructor.
  destruct (H _ _ _ Hc eq_refl Het (conj eq_refl eq_refl) Hef (conj eq_refl eq_refl))
    as [[_ Hskip] | [Hskip _]]; vm_compute in Hskip; discriminate Hskip.
Qed.

(** C4, amended. In a full run, the nodes targeted by a Payment node's
    ['success'] edge and by its failure edge, whatever the port is called,
    are both executed. *)
Theorem payment_targets_both_run
  (nodes : list Node) (edges : list Edge) (data : SimulationData) (w : World)
  (failurePort : string) (p : Node) (es ef : Edge) :
  p ∈ nodes → node_type p = Some "payment" →
  es ∈ edges → Spec.leaves es (node_id p) "success" →
  ef ∈ edges → Spec.leaves ef (node_id p) failurePort →
  edge_target es ∈ node_id <$> nodes →
  edge_target ef ∈ node_id <$> nodes →
  let steps := executionSteps (state (fullRun nodes edges data w).1) in
  Spec.ran steps (edge_target es) ∧ Spec.ran steps (edge_target ef).
Proof. intros _ _ _ _ _ _ Hs Hf steps. split; by apply fullRun_ran. Qed.

Lemma payment_targets_both_run_witness :
  let steps :=
    executionSteps
      (state (fullRun Sample.payment_nodes (Sample.payment_edges "failed")
                Sample.data (Sample.constant (1 # 2))).1) in
  Spec.ran steps "notification-1" ∧ Spec.ran steps "end-1".
Proof.
  refine (payment_targets_both_run
            Sample.payment_nodes (Sample.payment_edges "failed") Sample.data
            (Sample.constant (1 # 2)) "failed" (Sample.node "payment-1" "payment")
            (Sample.edge "e2" "payment-1" "notification-1" (Some "success"))
            (Sample.edge "e3" "payment-1" "end-1" (Some "failed"))
            _ _ _ _ _ _ _ _).
  all: first [ reflexivity | split; reflexivity | repeat constructor ].
Defined.

(** C4 fails as stated, with the failure port named ['failure'] as in the
    specification and named ['failed'] as on the Payment node's handle: the
    run executes the target of the ['success'] edge and the target of the
    failure edge. *)
Lemma payment_targets_not_exclusive :
  (¬ Spec.payment_exclusive "failure" Sample.payment_nodes
       (Sample.payment_edges "failure")
       (executionSteps
          (state (fullRun Sample.payment_nodes (Sample.payment_edges "failure")
                    Sample.data (Sample.constant (1 # 2))).1)))
  ∧ (¬ Spec.payment_exclusive "failed" Sample.payment_nodes
         (Sample.payment_edges "failed")
         (executionSteps
            (state (fullRun Sample.payment_nodes (Sample.payment_edges "failed")
                      Sample.data (Sample.constant (1 # 2))).1))).
Proof.
  split; intros H.
  - refine (H (Sample.node "payment-1" "payment")
              (Sample.edge "e2" "payment-1" "notification-1" (Some "success"))
              (Sample.edge "e3" "payment-1" "end-1" (Some "failure"))
              _ eq_refl _ (conj eq_refl eq_refl) _ (conj eq_refl eq_refl) _).
    1-3: repeat constructor.
    split; left; vm_compute; reflexivity.
  - refine (H (Sample.node "payment-1" "payment")
              (Sample.edge "e2" "payment-1" "notification-1" (Some "success"))
              (Sample.edge "e3" "payment-1" "end-1" (Some "failed"))
              _ eq_refl _ (conj eq_refl eq_refl) _ (conj eq_refl eq_refl) _).
    1-3: repeat constructor.
    split; left; vm_compute; reflexivity.
Qed.

(** *** C6: reset and replay *)

(** C6, amended. Reset and replay give the same step records as the first
    run, field for field and in the same order, provided the calls of
    [Math.random()] and [Date.now()] made by the replay return what the
    calls of the first run returned. *)
Theorem replay_repeats_when_draws_repeat
  (nodes : list Node) (edges : list Edge) (data : SimulationData) (w w2 : World) :
  agree w w2 →
  let first := fullRun nodes edges data w in
  executionSteps (state (applyAll (Spec.replay (length nodes)) first.1 w2).1)
  = executionSteps (state first.1).
Proof.
  intros Hagree first.
  pose proof (fullRun_visited nodes edges data w) as Hv. fold first in Hv.
  destruct (applyAll_runOps (Spec.replay (length nodes)) first.1 w2) as [-> _].
  assert (nodes = Sim.nodes first.1) as <- by (symmetry; apply applyAll_nodes).
  unfold Spec.replay. cbn [runOps step_op]. unfold bind at 1. cbn [ret].
  rewrite (stop_after_visit _ _ _ _ Hv).
  subst first. unfold fullRun.
  destruct (applyAll_runOps (Play :: playThrough (length nodes))
              (mount nodes edges data) w) as [-> _].
  cbn [mount state Sim.nodes]. f_equal. symmetry.
  by apply (respects_runOps nodes (Play :: playThrough (length nodes))).
Qed.

Lemma replay_repeats_when_draws_repeat_witness :
  let first :=
    fullRun Sample.line_nodes Sample.line_edges Sample.data
      (Sample.constant (1 # 2)) in
  let again := mkWorld (λ _, 1 # 2) 9 Z.of_nat 0 in
  executionSteps (state (applyAll (Spec.replay 3) first.1 again).1)
  = executionSteps (state first.1).
Proof.
  refine (replay_repeats_when_draws_repeat Sample.line_nodes Sample.line_edges
            Sample.data (Sample.constant (1 # 2))
            (mkWorld (λ _, 1 # 2) 9 Z.of_nat 0) _).
  split; intros k; reflexivity.
Defined.

(** C6 fails as stated: [Math.random()] is not reset by [stopSimulation].
    In a line Start, Action, End the first run makes nine draws, all 0.5,
    and completes every step; the replay's second draw is 0 and its first
    step fails. *)
Lemma replay_differs :
  ¬ Spec.replay_repeats Sample.line_nodes Sample.line_edges Sample.data
      (Sample.except 10 0).
Proof. intros H. vm_compute in H. discriminate H. Qed.

End SimFacts.

(** ** Facts about the simulator on the heap *)

Module MemFacts.

Import Mem.

Section Frame.

Context `{Builtins}.

(** *** The operations of the language *)

Lemma keeps_still {A} base (m : Store → A * Store) :
  (∀ s, heap (m s).2 = heap s) → keeps base m.
Proof. intros Hm s _. by rewrite Hm. Qed.

Lemma keeps_length {A} base (m : Store → A * Store) (s : Store) :
  keeps base m → (base ≤ length (heap s))%nat → (base ≤ length (heap (m s).2))%nat.
Proof.
  intros Hm Hs. pose proof (f_equal length (Hm s Hs)) as Hlen.
  rewrite !length_take in Hlen. lia.
Qed.

Lemma keeps_pure {A} base (a : A) : keeps base (pure a).
Proof. by apply keeps_still. Qed.

Lemma keeps_and_then {A B} base (m : Prog A) (k : A → Prog B) :
  keeps base m → (∀ a, keeps base (k a)) → keeps base (and_then m k).
Proof.
  intros Hm Hk s Hs. unfold and_then.
  pose proof (Hm s Hs) as Heq. pose proof (keeps_length base m s Hm Hs) as Hlen.
  destruct (m s) as [[a|e] s']; simpl in *; [|done].
  rewrite <- Heq. by apply Hk.
Qed.

Lemma keeps_lift {A} base (m : M A) : keeps base (lift m).
Proof. apply keeps_still. intros s. unfold lift. by destruct (m (world s)). Qed.

Lemma keeps_prop base v k : keeps base (prop v k).
Proof. apply keeps_still. intros s. by destruct v. Qed.

Lemma keeps_prop_opt base v k : keeps base (prop_opt v k).
Proof. destruct v; first [apply keeps_pure | apply keeps_prop]. Qed.

Lemma keeps_elements base v : keeps base (elements v).
Proof.
  apply keeps_still. intros s. destruct v as [| | | | |l]; try done.
  simpl. by destruct (heap s !! l) as [[]|].
Qed.

Lemma keeps_iterate base v : keeps base (iterate v).
Proof. destruct v; first [apply keeps_pure | apply keeps_elements]. Qed.

Lemma keeps_own_fields base v : keeps base (own_fields v).
Proof. by apply keeps_still. Qed.

Lemma keeps_template base prefix v suffix : keeps base (template prefix v suffix).
Proof. by apply keeps_still. Qed.

(** A literal adds a cell. *)
Lemma keeps_alloc base c : keeps base (alloc c).
Proof. intros s Hs. simpl. by rewrite take_app_le. Qed.

Lemma keeps_literal base spread props : keeps base (literal spread props).
Proof. apply keeps_alloc. Qed.

(** The reference a literal returns is to a cell past the ones kept. *)
Lemma keeps_alloc_then {B} base c (k : Val → Prog B) :
  (∀ l, (base ≤ l)%nat → keeps base (k (VRef l))) → keeps base (and_then (alloc c) k).
Proof.
  intros Hk s Hs. unfold and_then, alloc.
  rewrite <- (take_app_le (heap s) [c] base) by done.
  apply (Hk (length (heap s)) Hs (mkStore (heap s ++ [c]) (world s))).
  simpl. rewrite length_app. lia.
Qed.

(** [push] writes to the array it is called on, and to no other cell. *)
Lemma keeps_push base l x : (base ≤ l)%nat → keeps base (push (VRef l) x).
Proof.
  intros Hl s Hs. unfold push.
  destruct (heap s !! l) as [[fields|items]|]; simpl; try done.
  by rewrite take_insert_ge.
Qed.

Lemma keeps_each {A} base (f : Val → nat → Prog A) index items :
  (∀ x i, keeps base (f x i)) → keeps base (each f index items).
Proof.
  intros Hf. revert index.
  induction items as [|x rest IH]; intros index; simpl; [apply keeps_pure|].
  apply keeps_and_then; [apply Hf|]. intros y.
  apply keeps_and_then; [apply IH|]. intros ys. apply keeps_pure.
Qed.

Lemma keeps_array_map base a f :
  (∀ x i, keeps base (f x i)) → keeps base (array_map a f).
Proof.
  intros Hf. apply keeps_and_then; [apply keeps_elements|]. intros items.
  apply keeps_and_then; [by apply keeps_each|]. intros results. apply keeps_alloc.
Qed.

Lemma keeps_first_where base test items :
  (∀ x, keeps base (test x)) → keeps base (first_where test items).
Proof.
  intros Htest. induction items as [|x rest IH]; simpl; [apply keeps_pure|].
  apply keeps_and_then; [apply Htest|]. intros [|]; [apply keeps_pure | apply IH].
Qed.

Lemma keeps_array_find base a test :
  (∀ x, keeps base (test x)) → keeps base (array_find a test).
Proof.
  intros Htest. apply keeps_and_then; [apply keeps_elements|]. intros items.
  by apply keeps_first_where.
Qed.

(** One step of a proof that a handler keeps the cells below [base]. *)
Ltac keeps_step :=
  lazymatch goal with
  | |- keeps _ (and_then (alloc _) _) => apply keeps_alloc_then; intros ? ?
  | |- keeps _ (and_then _ _) => apply keeps_and_then; [|intros ?]
  | |- keeps _ (if ?b then _ else _) => destruct b
  | |- keeps _ (pure _) => apply keeps_pure
  | |- keeps _ (lift _) => apply keeps_lift
  | |- keeps _ (prop _ _) => apply keeps_prop
  | |- keeps _ (prop_opt _ _) => apply keeps_prop_opt
  | |- keeps _ (elements _) => apply keeps_elements
  | |- keeps _ (iterate _) => apply keeps_iterate
  | |- keeps _ (own_fields _) => apply keeps_own_fields
  | |- keeps _ (template _ _ _) => apply keeps_template
  | |- keeps _ (literal _ _) => apply keeps_literal
  | |- keeps _ (alloc _) => apply keeps_alloc
  | |- keeps _ (push (VRef _) _) => apply keeps_push; assumption
  | |- keeps _ (array_map _ _) => apply keeps_array_map; intros ? ?
  | |- keeps _ (array_find _ _) => apply keeps_array_find; intros ?
  end.

(** *** The handlers *)

Lemma keeps_simulateNodeExecution base node data :
  keeps base (simulateNodeExecution node data).
Proof. unfold simulateNodeExecution. repeat keeps_step. Qed.

Lemma keeps_initialize base nodes st : keeps base (initialize nodes st).
Proof. unfold initialize. repeat keeps_step. Qed.

Lemma keeps_reset_steps base prev : keeps base (reset_steps prev).
Proof. unfold reset_steps. repeat keeps_step. Qed.

Lemma keeps_executeNextStep base nodes st : keeps base (executeNextStep nodes st).
Proof. unfold executeNextStep. repeat keeps_step. Qed.

Lemma keeps_stepTimeout base p st : keeps base (stepTimeout p st).
Proof.
  unfold stepTimeout.
  repeat first [apply keeps_simulateNodeExecution | keeps_step].
Qed.

Lemma keeps_startSimulation base st : keeps base (startSimulation st).
Proof.
  unfold startSimulation. repeat first [apply keeps_reset_steps | keeps_step].
Qed.

(** [onStop] is the parent's: the simulator keeps what [onStop] keeps. *)
Lemma keeps_stopSimulation base onStop st :
  (∀ s, heap s `prefix_of` heap (onStop s)) → keeps base (stopSimulation onStop st).
Proof.
  intros HonStop. unfold stopSimulation.
  apply keeps_and_then; [apply keeps_reset_steps|]. intros reset.
  apply keeps_and_then; [|intros ?; apply keeps_pure].
  intros s Hs. simpl. destruct (HonStop s) as [added ->]. by rewrite take_app_le.
Qed.

Lemma keeps_handler base onStop nodes op st :
  (∀ s, heap s `prefix_of` heap (onStop s)) → keeps base (handler onStop nodes op st).
Proof.
  intros HonStop. destruct op; simpl.
  - apply keeps_initialize.
  - apply keeps_startSimulation.
  - apply keeps_pure.
  - by apply keeps_stopSimulation.
  - apply keeps_pure.
  - apply keeps_executeNextStep.
  - apply keeps_and_then.
    + unfold autoPlay_armed. repeat keeps_step.
    + intros [|]; [apply keeps_executeNextStep | apply keeps_pure].
  - destruct (timeouts st !! k); [apply keeps_stepTimeout | apply keeps_pure].
Qed.

Lemma keeps_step_op base onStop nodes op st :
  (∀ s, heap s `prefix_of` heap (onStop s)) → keeps base (step_op onStop nodes op st).
Proof.
  intros HonStop s Hs. unfold step_op.
  pose proof (keeps_handler base onStop nodes op st HonStop s Hs) as Hkeeps.
  by destruct (handler onStop nodes op st s) as [[st'|e] s'].
Qed.

Lemma keeps_runOps base onStop nodes ops st :
  (∀ s, heap s `prefix_of` heap (onStop s)) → keeps base (runOps onStop nodes ops st).
Proof.
  intros HonStop. revert st.
  induction ops as [|op rest IH]; intros st s Hs; simpl; [done|].
  pose proof (keeps_step_op base onStop nodes op st HonStop s Hs) as Hop.
  pose proof (keeps_length base _ s (keeps_step_op base onStop nodes op st HonStop) Hs)
    as Hlen.
  destruct (step_op onStop nodes op st s) as [st' s']; simpl in *.
  rewrite <- Hop. by apply IH.
Qed.

(** A computation that keeps every cell of the heap it starts in leaves a
    heap that extends it. *)
Lemma keeps_prefix {A} (m : Store → A * Store) (s : Store) :
  keeps (length (heap s)) m → heap s `prefix_of` heap (m s).2.
Proof.
  intros Hm. specialize (Hm s (le_n _)).
  rewrite (take_ge (heap s)) in Hm by done. rewrite <- Hm. apply prefix_take.
Qed.

(** What a value spells out in a heap, it spells out in every extension. *)
Lemma contents_prefix (h h' : list Cell) (depth : nat) (v : Val) (tree : JsValue) :
  h `prefix_of` h' → contents h depth v = Some tree → contents h' depth v = Some tree.
Proof.
  intros Hprefix. revert v tree.
  induction depth as [|d IH]; intros [| | | | |l] tree; simpl; try done.
  destruct (h !! l) as [c|] eqn:Hcell; [|done].
  rewrite (prefix_lookup_Some _ _ _ _ Hcell Hprefix).
  destruct c as [fields|items]; intros Hread.
  - apply fmap_Some in Hread as (read & Hread & ->).
    apply mapM_Some in Hread.
    assert (mapM (λ kv, pair kv.1 <$> contents h' d kv.2) fields = Some read) as ->; [|done].
    apply mapM_Some. eapply Forall2_impl; [exact Hread|].
    intros kv kt Hkv. simpl in *. apply fmap_Some in Hkv as (t & Ht & ->).
    by rewrite (IH _ _ Ht).
  - apply fmap_Some in Hread as (read & Hread & ->).
    apply mapM_Some in Hread.
    assert (mapM (contents h' d) items = Some read) as ->; [|done].
    apply mapM_Some. eapply Forall2_impl; [exact Hread|]. intros x t. apply IH.
Qed.

(** C7. The simulator is mounted on a heap that holds the flow: [nodes] and
    [edges] refer to its arrays. Whatever the component's state, whatever
    sequence of operations follows (the effect on [nodes], Play, Pause, Stop,
    a jump, a step, the auto-play timer, a timeout firing), and whatever the
    parent's [onStop] does short of writing to a cell that exists, every cell
    that was in the heap is in it unchanged afterwards: the handlers read,
    make new objects and arrays, and [push] only onto the [logs] array that
    [simulateNodeExecution] has just made. So what [nodes] and [edges] spell
    out, to any depth, is what they spelled out before. *)
Theorem controller_never_mutates_flow
  (onStop : Store → Store) (nodes edges : Val) (ops : list Op) (st : State) (s : Store) :
  (∀ s0, heap s0 `prefix_of` heap (onStop s0)) →
  let after := (runOps onStop nodes ops st s).2 in
  heap s `prefix_of` heap after
  ∧ (∀ depth graph, contents (heap s) depth nodes = Some graph →
                    contents (heap after) depth nodes = Some graph)
  ∧ (∀ depth graph, contents (heap s) depth edges = Some graph →
                    contents (heap after) depth edges = Some graph).
Proof.
  intros HonStop after.
  assert (heap s `prefix_of` heap after) as Hprefix.
  { apply keeps_prefix. by apply keeps_runOps. }
  split; [done|]. split; intros depth graph; by apply contents_prefix.
Qed.

End Frame.

(** A full run of the sample flow on the heap, then Stop: the run made
    cells, and the two arrays spell out what they did. *)
Lemma controller_never_mutates_flow_witness :
  let ops := [Effect; Play; AutoPlay; Fire 0; AutoPlay; Fire 0; Stop] in
  let after :=
    (runOps (H := Sample.spelled) id (VRef 4) ops
            Sample.flow_state Sample.flow_store).2 in
  (length Sample.flow_heap < length (heap after))%nat
  ∧ Sample.flow_heap `prefix_of` heap after
  ∧ contents (heap after) 3 (VRef 4) = Some Sample.flow_nodes
  ∧ contents (heap after) 3 (VRef 6) = Some Sample.flow_edges.
Proof.
  intros ops after.
  destruct (controller_never_mutates_flow (H := Sample.spelled) id (VRef 4) (VRef 6)
              ops Sample.flow_state Sample.flow_store (λ s0, reflexivity _))
    as (Hprefix & Hnodes & Hedges).
  split; [vm_compute; lia|]. split; [exact Hprefix|].
  split; [apply Hnodes | apply Hedges]; reflexivity.
Defined.

(** A handler that pushed onto the [nodes] array would not keep it: the
    heap distinguishes a write from a read. *)
Lemma a_push_onto_the_nodes_shows :
  let after := (push (VRef 4) VNull Sample.flow_store).2 in
  ¬ Sample.flow_heap `prefix_of` heap after
  ∧ contents (heap after) 3 (VRef 4) ≠ Some Sample.flow_nodes.
Proof.
  split; [|vm_compute; discriminate].
  intros [added Hadded]. vm_compute in Hadded. discriminate Hadded.
Qed.

End MemFacts.


(** ** Facts about the builder *)

Module BuilderFacts.

Import Builder.

(** *** C5: publishing *)

Lemma buildFlowData_fields flow st s w :
  flow_status (buildFlowData flow st s w).1 = s
  ∧ flow_nodes (buildFlowData flow st s w).1 = nodes st
  ∧ flow_edges (buildFlowData flow st s w).1 = edges st.
Proof.
  unfold buildFlowData. cbv [bind ret Date_now].
  repeat case_match; simplify_eq; done.
Qed.

(** C5, amended. [handlePublish] runs no validation: for every editor
    state, whatever its nodes and edges, the flow it hands to [onPublish]
    has status ['active'] and carries the nodes and edges as they are, and
    the editor's own status becomes ['active']. *)
Theorem handlePublish_always_activates
  (flow : option FlowData) (st : Editor) (w : World) :
  let published := (handlePublish flow st w).1 in
  flow_status (published.1) = active
  ∧ flow_nodes (published.1) = nodes st
  ∧ flow_edges (published.1) = edges st
  ∧ status (flowProperties (published.2)) = active
  ∧ nodes (published.2) = nodes st
  ∧ edges (published.2) = edges st.
Proof.
  unfold handlePublish, bind, ret.
  destruct (buildFlowData_fields flow st active w) as (Hs & Hn & He).
  destruct (buildFlowData flow st active w) as [flowData w']. by cbn in *.
Qed.

(** C5 fails as stated: the editor's first state has a Start node and no
    End node, and publishing it makes it active. *)
Lemma publish_is_not_gated :
  ¬ Spec.publish_is_gated None (initial None) (Sample.constant 0).
Proof.
  intros H. vm_compute in H. specialize (H (or_introl eq_refl)). discriminate H.
Qed.

(** *** C9: deleting a node *)

(** C9. After [deleteNode(nodeId)], in any editor state: no remaining edge
    has [nodeId] as its source or target, no remaining node has that id, and
    if every edge endpoint was the id of a node before, the same holds
    after. *)
Theorem deleteNode_leaves_no_dangling_edge (nodeId : string) (st : Editor) :
  let st' := deleteNode nodeId st in
  (∀ e, e ∈ edges st' → edge_source e ≠ nodeId ∧ edge_target e ≠ nodeId)
  ∧ (nodeId ∉ node_id <$> nodes st')
  ∧ (edges_closed (nodes st) (edges st) → edges_closed (nodes st') (edges st')).
Proof.
  cbn. split; [|split].
  - intros e He. by apply list_elem_of_filter in He as [? _].
  - intros Hin. apply list_elem_of_fmap in Hin as (n & -> & Hn).
    by apply list_elem_of_filter in Hn as [? _].
  - unfold edges_closed. rewrite !Forall_forall. intros Hclosed e He.
    apply list_elem_of_filter in He as [[Hsrc Htgt] He].
    destruct (Hclosed e He) as [Hs Ht].
    apply list_elem_of_fmap in Hs as (ns & Hns & Hs).
    apply list_elem_of_fmap in Ht as (nt & Hnt & Ht).
    split; apply list_elem_of_fmap.
    + exists ns. split; [done|]. apply list_elem_of_filter. by rewrite <- Hns.
    + exists nt. split; [done|]. apply list_elem_of_filter. by rewrite <- Hnt.
Qed.

(** Deleting the Action of the line Start, Action, End. *)
Lemma deleteNode_leaves_no_dangling_edge_witness :
  let st := with_graph Sample.line_nodes Sample.line_edges (initial None) in
  edges_closed (nodes st) (edges st)
  ∧ edges_closed (nodes (deleteNode "action-1" st)) (edges (deleteNode "action-1" st)).
Proof.
  intros st.
  assert (edges_closed (nodes st) (edges st)) as Hclosed.
  { unfold edges_closed. apply (bool_decide_unpack _). vm_compute. exact I. }
  split; [exact Hclosed|].
  exact (proj2 (proj2 (deleteNode_leaves_no_dangling_edge "action-1" st)) Hclosed).
Defined.

(** *** C10: undo and redo *)

(** [undo] puts the snapshot before the current one on the canvas. *)
Lemma undo_restores_previous st prevState :
  (0 < historyIndex st)%nat →
  history st !! (historyIndex st - 1)%nat = Some prevState →
  undo st = Done (with_historyIndex (historyIndex st - 1)%nat
                    (with_graph (snap_nodes prevState) (snap_edges prevState) st)).
Proof.
  intros Hpos Hprev. unfold undo.
  by rewrite bool_decide_eq_true_2, Hprev by done.
Qed.

(** [redo] after [undo] puts the snapshot stored at the current index on
    the canvas and the index back: the round trip over the history list. *)
Lemma redo_after_undo_restores_snapshot st prevState current :
  (0 < historyIndex st)%nat →
  history st !! (historyIndex st - 1)%nat = Some prevState →
  history st !! historyIndex st = Some current →
  redo (settle st (undo st))
  = Done (with_historyIndex (historyIndex st)
            (with_graph (snap_nodes current) (snap_edges current) st)).
Proof.
  intros Hpos Hprev Hcur. rewrite (undo_restores_previous st prevState) by done.
  apply lookup_lt_Some in Hcur as Hlt.
  unfold redo. cbn.
  rewrite bool_decide_eq_true_2 by lia.
  replace (historyIndex st - 1 + 1)%nat with (historyIndex st) by lia.
  by rewrite Hcur.
Qed.

(** What [saveToHistory] appends is the graph of the render that created
    the handler, not the graph the handler has just produced. *)
Lemma addNode_saves_the_old_graph nodeType position st w :
  last (history (addNode nodeType position st w).1)
  = Some (mkSnapshot (nodes st) (edges st))
  ∧ length (nodes (addNode nodeType position st w).1) = S (length (nodes st)).
Proof.
  unfold addNode. cbv [bind ret Date_now Math_random].
  destruct position as [pos|]; cbn; by rewrite last_snoc, length_app, Nat.add_1_r.
Qed.

(** C10, on the failing input. In the editor's first state, after
    [addNode('end')] the canvas holds the Start and the End node and the
    history index is 1; [undo] and then [redo] leave the canvas with the
    Start node alone, so the graph before the [undo] is not restored. *)
Theorem undo_redo_loses_added_node :
  let st := (addNode "end" None (initial None) (Sample.constant (1 # 2))).1 in
  historyIndex st = 1%nat
  ∧ node_id <$> nodes st = ["start-1"; "end-0"]
  ∧ nodes (settle (settle st (undo st)) (redo (settle st (undo st)))) = initialNodes
  ∧ ¬ Spec.undo_redo_roundtrip st.
Proof.
  repeat split; try reflexivity.
  intros [Hnodes _]. vm_compute in Hnodes. discriminate Hnodes.
Qed.

End BuilderFacts.


(** ** More facts about the simulator *)

Module SimExtras.

Import Sim SimFacts.

(** *** What every reachable state keeps *)

Lemma reset_step_idemp step : reset_step (reset_step step) = reset_step step.
Proof. done. Qed.

Lemma fmap_reset_idemp (steps : list ExecutionStep) :
  reset_step <$> (reset_step <$> steps) = reset_step <$> steps.
Proof. rewrite <- list_fmap_compose. by apply list_fmap_ext. Qed.

Lemma Forall_map_at (P : ExecutionStep → Prop) i f prev :
  (∀ step, P step → P (f step)) → Forall P prev → Forall P (map_at i f prev).
Proof.
  intros Hf Hprev. apply Forall_lookup. intros j step.
  rewrite lookup_map_at. destruct (prev !! j) as [old|] eqn:Hold; [|done].
  cbn. intros [= <-]. pose proof (Forall_lookup_1 _ _ _ _ Hprev Hold).
  case_bool_decide; auto.
Qed.

Lemma kept_length nodes st :
  kept nodes st → length (executionSteps st) = length nodes.
Proof.
  intros [Hreset _]. apply (f_equal length) in Hreset. unfold initial_steps in Hreset.
  by rewrite length_fmap, length_imap in Hreset.
Qed.

Lemma kept_lookup nodes st (i : nat) step :
  kept nodes st → executionSteps st !! i = Some step →
  ∃ node, nodes !! i = Some node ∧ reset_step step = initial_step i node.
Proof.
  intros [Hreset _] Hstep.
  apply (f_equal (λ l, l !! i)) in Hreset.
  unfold initial_steps in Hreset.
  rewrite list_lookup_fmap, list_lookup_imap, Hstep in Hreset.
  destruct (nodes !! i) as [node|]; simplify_eq/=. by exists node.
Qed.

(** The node of a step of a kept state is always found. *)
Lemma kept_node_found nodes st (i : nat) step :
  kept nodes st → executionSteps st !! i = Some step →
  is_Some (list_find (λ n, node_id n = nodeId step) nodes).
Proof.
  intros Hkept Hstep.
  destruct (kept_lookup _ _ _ _ Hkept Hstep) as (node & Hnode & Hid).
  apply (list_find_elem_of _ _ node); [by eapply list_elem_of_lookup_2|].
  by apply (f_equal nodeId) in Hid.
Qed.

Lemma simulate_found_no_error n data w :
  res_error (simulateNodeExecution (Some n) data w).1 = None.
Proof.
  unfold simulateNodeExecution. cbv [bind ret Date_now Math_random].
  repeat case_decide; done.
Qed.

Lemma kept_start nodes data : kept nodes (start_state nodes data).
Proof.
  split; [apply reset_initial_steps|]. split; [|by constructor].
  apply Forall_lookup. intros i step. cbn. unfold initial_steps.
  rewrite list_lookup_imap. destruct (nodes !! i); [|done]. by intros [= <-].
Qed.

Lemma kept_reset nodes st (f : State → State) :
  (executionSteps (f st) = reset_step <$> executionSteps st) →
  timeouts (f st) = timeouts st →
  kept nodes st → kept nodes (f st).
Proof.
  intros Hsteps Hto (Hreset & Hall & Htimeouts). unfold kept.
  rewrite Hsteps, Hto, fmap_reset_idemp. split; [done|]. split; [|done].
  apply Forall_fmap. by apply Forall_true.
Qed.

Lemma kept_same_steps nodes st st' :
  executionSteps st' = executionSteps st → timeouts st' = timeouts st →
  kept nodes st → kept nodes st'.
Proof. unfold kept. by intros -> ->. Qed.

Ltac state_cbn :=
  cbn [fst snd settle executionSteps timeouts currentStepIndex isPlaying
       simulationData playbackSpeed selectedStep
       with_index with_steps with_timeouts with_playing].

Lemma kept_executeNextStep nodes st w :
  kept nodes st → kept nodes (settle st (executeNextStep nodes st w).1).
Proof.
  intros Hkept. pose proof (kept_length _ _ Hkept) as Hlen.
  unfold executeNextStep. case_bool_decide as Hend.
  { by apply (kept_same_steps nodes st). }
  destruct (at_index (executionSteps st) (currentStepIndex st)) as [step|] eqn:Hat.
  - apply at_index_Some in Hat as [Hpos Hstep].
    pose proof (kept_node_found _ _ _ _ Hkept Hstep) as [found Hfound].
    cbv [bind ret Date_now Math_random]. state_cbn.
    destruct Hkept as (Hreset & Hall & Htimeouts). repeat split; state_cbn.
    + by rewrite fmap_reset_map_at.
    + apply Forall_map_at; [|done]. by intros s [_ ?].
    + apply Forall_app. split; [done|]. apply Forall_singleton. cbn [p_node].
      rewrite Hfound. right. by eexists.
  - destruct nodes as [|n nodes]; [|done].
    cbv [bind ret Math_random]. state_cbn.
    destruct Hkept as (Hreset & Hall & Htimeouts). repeat split; state_cbn; [done..|].
    apply Forall_app. split; [done|]. apply Forall_singleton. by left.
Qed.

Lemma kept_stepTimeout nodes p st w :
  nodes = [] ∨ is_Some (p_node p) →
  kept nodes st → kept nodes (stepTimeout p st w).1.
Proof.
  intros Hp Hkept. pose proof (kept_length _ _ Hkept) as Hlen.
  destruct Hkept as (Hreset & Hall & Htimeouts). unfold stepTimeout.
  cbv [bind ret Math_random].
  destruct (at_index (executionSteps st) (p_index p)) as [step|] eqn:Hat;
    [|by repeat split].
  destruct Hp as [-> | [n Hn]].
  { apply at_index_Some in Hat as [_ Hstep]. apply lookup_lt_Some in Hstep.
    cbn in Hlen. lia. }
  rewrite Hn.
  pose proof (simulate_found_no_error n (p_data p)
                {| random_src := random_src w; random_calls := S (S (random_calls w));
                   clock_src := clock_src w; clock_calls := clock_calls w |}) as Herr.
  destruct (simulateNodeExecution _ _ _) as [result w']. cbn [fst] in Herr.
  cbv [Date_now]. repeat split; state_cbn; [| |done].
  - by rewrite fmap_reset_map_at.
  - apply Forall_map_at; [|done]. intros s _. cbn [status error seal_step].
    rewrite Herr. by destruct (gt _ _).
Qed.

Lemma kept_step_op nodes op st w :
  kept nodes st → kept nodes (step_op nodes op st w).1.
Proof.
  intros Hkept. destruct op; cbn [step_op].
  - unfold startSimulation. case_bool_decide.
    + by apply (kept_reset nodes st (λ st, with_steps (map reset_step)
                                           (with_index (λ _, 0) (with_playing true st)))).
    + by apply (kept_same_steps nodes st).
  - by apply (kept_same_steps nodes st).
  - by apply (kept_reset nodes st stopSimulation).
  - by apply (kept_same_steps nodes st).
  - unfold bind. pose proof (kept_executeNextStep nodes st w Hkept) as H.
    by destruct (executeNextStep nodes st w).
  - destruct (autoPlay_armed st); [|done].
    unfold bind. pose proof (kept_executeNextStep nodes st w Hkept) as H.
    by destruct (executeNextStep nodes st w).
  - destruct (timeouts st !! k) as [p|] eqn:Hp; [|done].
    destruct Hkept as (Hreset & Hall & Htimeouts).
    apply kept_stepTimeout.
    + exact (Forall_lookup_1 _ _ _ _ Htimeouts Hp).
    + repeat split; [done..|]. cbn. by apply Forall_delete.
Qed.

Lemma kept_runOps nodes ops st w :
  kept nodes st → kept nodes (runOps nodes ops st w).1.
Proof.
  revert st w. induction ops as [|op ops IH]; intros st w Hkept; [done|].
  cbn. unfold bind. pose proof (kept_step_op nodes op st w Hkept).
  destruct (step_op nodes op st w) as [st' w']. by apply IH.
Qed.

(** Whatever was done to a mounted simulator, its state is a kept one. *)
Lemma kept_mounted nodes edges data ops w :
  kept nodes (state (applyAll ops (mount nodes edges data) w).1).
Proof.
  destruct (applyAll_runOps ops (mount nodes edges data) w) as [-> _].
  apply kept_runOps, kept_start.
Qed.

(** X1. Whatever operations were applied to a mounted simulator, there is
    one step record per node, in node order, and each record still has the
    id, node id and node name it was created with and no input. *)
Theorem steps_keep_their_identity
  (nodes : list Node) (edges : list Edge) (data : SimulationData)
  (ops : list Op) (w : World) :
  let st := state (applyAll ops (mount nodes edges data) w).1 in
  length (executionSteps st) = length nodes
  ∧ ∀ (i : nat) step,
      executionSteps st !! i = Some step →
      ∃ node, nodes !! i = Some node
              ∧ step_id step = "step-" +:+ pretty i
              ∧ nodeId step = node_id node
              ∧ nodeName step = nodeName (initial_step i node)
              ∧ input step = None.
Proof.
  intros st. pose proof (kept_mounted nodes edges data ops w) as Hkept.
  fold st in Hkept. split; [by apply kept_length|].
  intros i step Hstep.
  destruct (kept_lookup _ _ _ _ Hkept Hstep) as (node & Hnode & Hid).
  exists node. split; [done|].
  split; [exact (f_equal step_id Hid)|].
  split; [exact (f_equal nodeId Hid)|].
  split; [exact (f_equal nodeName Hid) | exact (f_equal input Hid)].
Qed.

(** X2. Whatever operations were applied to a mounted simulator, no step
    record has status ['skipped'] and none carries an error text: the
    ['Node not found'] result of [simulateNodeExecution] is never reached,
    and a step that fails for a node that exists gets [error: undefined]. *)
Theorem no_step_is_skipped_or_has_error_text
  (nodes : list Node) (edges : list Edge) (data : SimulationData)
  (ops : list Op) (w : World) (step : ExecutionStep) :
  step ∈ executionSteps (state (applyAll ops (mount nodes edges data) w).1) →
  status step ≠ skipped ∧ error step = None.
Proof.
  intros Hstep. destruct (kept_mounted nodes edges data ops w) as (_ & Hall & _).
  by apply (proj1 (Forall_forall _ _) Hall).
Qed.

Lemma no_step_is_skipped_or_has_error_text_witness :
  let failedStep :=
    mkStep "step-1" "action-1" (JStr "Action") failed (Some 3) (Some 4) (Some 1500)
           None
           None None
           [Log "Executing Action..."; Log "Executing HTTP request";
            Log "Request sent to external API"; Log "Response received successfully";
            Log "Execution failed"] in
  status failedStep ≠ skipped ∧ error failedStep = None.
Proof.
  intros failedStep.
  refine (no_step_is_skipped_or_has_error_text
            Sample.line_nodes Sample.line_edges Sample.data
            (Play :: playThrough 3) (Sample.except 4 0) failedStep _).
  apply (list_elem_of_lookup_2 _ 1%nat). vm_compute. reflexivity.
Defined.

(** X3. The ids of the step records (the React keys of the timeline) are
    pairwise distinct in every state of a mounted simulator. *)
Theorem step_ids_are_distinct
  (nodes : list Node) (edges : list Edge) (data : SimulationData)
  (ops : list Op) (w : World) :
  NoDup (step_id <$> executionSteps (state (applyAll ops (mount nodes edges data) w).1)).
Proof.
  destruct (kept_mounted nodes edges data ops w) as (Hreset & _).
  set (st := state _) in *.
  replace (step_id <$> executionSteps st)
    with (step_id <$> (reset_step <$> executionSteps st))
    by (rewrite <- list_fmap_compose; by apply list_fmap_ext).
  rewrite Hreset. unfold initial_steps.
  replace (step_id <$> imap initial_step nodes)
    with ((λ i : nat, "step-" +:+ pretty i) <$> seq 0 (length nodes)).
  - apply NoDup_fmap_2; [|apply NoDup_seq].
    intros i j Hij. cbn in Hij. injection Hij as Hij. by apply (inj pretty).
  - apply list_eq. intros i.
    rewrite !list_lookup_fmap, list_lookup_imap.
    destruct (nodes !! i) as [node|] eqn:Hnode.
    + apply lookup_lt_Some in Hnode as Hlt. by rewrite lookup_seq_lt.
    + apply lookup_ge_None in Hnode as Hge. by rewrite lookup_seq_ge.
Qed.

(** *** [executeNextStep] and its timeout *)

(** X5. [executeNextStep] by position of the current step index. At or
    past the end it only clears [isPlaying]. In range it marks that step
    ['running'], schedules exactly one timeout and leaves the index where it
    is: the index moves when the timeout fires. Below zero it throws before
    any update and before any read of the clock or of [Math.random()] when
    the flow has a node; when the flow has no node it does not throw: it
    changes no step and schedules a timeout that found no node. *)
Theorem executeNextStep_by_index (nodes : list Node) (st : State) (w : World) :
  (Z.of_nat (length (executionSteps st)) ≤ currentStepIndex st →
   executeNextStep nodes st w = (Done (with_playing false st), w))
  ∧ (0 ≤ currentStepIndex st < Z.of_nat (length (executionSteps st)) →
     ∃ st', (executeNextStep nodes st w).1 = Done st'
            ∧ status <$> at_index (executionSteps st') (currentStepIndex st)
              = Some running
            ∧ length (timeouts st') = S (length (timeouts st))
            ∧ currentStepIndex st' = currentStepIndex st)
  ∧ (currentStepIndex st < 0 → nodes ≠ [] →
     executeNextStep nodes st w = (Threw "TypeError", w))
  ∧ (currentStepIndex st < 0 → nodes = [] →
     executeNextStep nodes st w
     = (Done (with_timeouts
                (λ ts, ts ++ [mkPending (currentStepIndex st) None (simulationData st)
                                (floor_scaled (random_src w (random_calls w)) 1000 500)])
                st),
        (Math_random w).2)).
Proof.
  unfold executeNextStep. repeat split.
  - intros Hend. by rewrite bool_decide_eq_true_2.
  - intros [Hpos Hlt]. rewrite bool_decide_eq_false_2 by lia.
    destruct (lookup_lt_is_Some_2 (executionSteps st) (Z.to_nat (currentStepIndex st)))
      as [step Hstep]; [lia|].
    assert (at_index (executionSteps st) (currentStepIndex st) = Some step) as Hat.
    { unfold at_index. by rewrite bool_decide_eq_false_2 by lia. }
    rewrite Hat. cbv [bind ret Date_now Math_random]. state_cbn.
    eexists. split; [done|]. state_cbn.
    rewrite at_index_map_at, Hat, length_app. cbn. split; [done|]. split; [lia|done].
  - intros Hneg Hnodes. rewrite bool_decide_eq_false_2 by lia.
    unfold at_index. rewrite bool_decide_eq_true_2 by done.
    by destruct nodes.
  - intros Hneg ->. rewrite bool_decide_eq_false_2 by lia.
    unfold at_index. rewrite bool_decide_eq_true_2 by done.
    reflexivity.
Qed.

Lemma executeNextStep_by_index_witness :
  let st := jumpToStep (-1) (start_state Sample.line_nodes Sample.data) in
  let empty := jumpToStep (-1) (start_state [] Sample.data) in
  currentStepIndex st < 0
  ∧ executeNextStep Sample.line_nodes st (Sample.constant (1 # 2))
    = (Threw "TypeError", Sample.constant (1 # 2))
  ∧ timeouts (settle empty (executeNextStep [] empty (Sample.constant (1 # 2))).1)
    = [mkPending (-1) None Sample.data 1000].
Proof.
  intros st empty. split; [reflexivity|]. split.
  - exact (proj1 (proj2 (proj2 (executeNextStep_by_index Sample.line_nodes st
                                  (Sample.constant (1 # 2)))))
             eq_refl ltac:(discriminate)).
  - rewrite (proj2 (proj2 (proj2 (executeNextStep_by_index [] empty
                                    (Sample.constant (1 # 2)))))
               eq_refl eq_refl).
    reflexivity.
Defined.

(** What the timeout callback does to a step in range, with the draws it
    makes spelled out. *)
Lemma stepTimeout_sealed p st w step :
  at_index (executionSteps st) (p_index p) = Some step →
  ∃ result now,
    (stepTimeout p st w).1
    = with_index (λ prev, prev + 1)
        (with_steps
           (λ _, map_at (p_index p)
                   (seal_step (gt (random_src w (random_calls w)) (1 # 10))
                              (floor_scaled (random_src w (S (random_calls w))) 2000 500)
                              result now)
                   (executionSteps st)) st).
Proof.
  intros Hat. unfold stepTimeout. rewrite Hat. cbv [bind ret Math_random Date_now].
  cbn [random_src random_calls].
  destruct (simulateNodeExecution _ _ _) as [result w']. cbn. eauto.
Qed.

(** X6. [stopSimulation] does not cancel a step that is running: the
    timeout of [executeNextStep] stays scheduled, and when it fires after
    the stop it seals its step (which then has an end time but no start
    time) and moves the current step index from 0 to 1. *)
Theorem stop_does_not_cancel_running_step (p : Pending) (st : State) (w : World) :
  is_Some (at_index (executionSteps st) (p_index p)) →
  timeouts (stopSimulation st) = timeouts st
  ∧ let st' := (stepTimeout p (stopSimulation st) w).1 in
    currentStepIndex st' = 1
    ∧ ∃ step, at_index (executionSteps st') (p_index p) = Some step
              ∧ (status step = completed ∨ status step = failed)
              ∧ startTime step = None
              ∧ is_Some (endTime step).
Proof.
  intros [old Hold]. split; [done|].
  assert (at_index (executionSteps (stopSimulation st)) (p_index p)
          = Some (reset_step old)) as Hat.
  { apply at_index_Some in Hold as Hlook. destruct Hlook as [Hpos Hlook].
    unfold at_index. rewrite bool_decide_eq_false_2 by lia.
    cbn. by rewrite list_lookup_fmap, Hlook. }
  destruct (stepTimeout_sealed p (stopSimulation st) w _ Hat) as (result & now & ->).
  state_cbn. split; [done|].
  rewrite at_index_map_at. change (map reset_step (executionSteps st))
    with (executionSteps (stopSimulation st)). rewrite Hat. cbn.
  eexists. split; [done|]. cbn. split; [|by eauto].
  destruct (gt _ _); [by left | by right].
Qed.

(** The first step of the line was started, then Stop was pressed. *)
Lemma stop_does_not_cancel_running_step_witness :
  let st := (runOps Sample.line_nodes [Play; AutoPlay]
               (start_state Sample.line_nodes Sample.data)
               (Sample.constant (1 # 2))).1 in
  let p := mkPending 0 (Some (Sample.node "start-1" "start")) Sample.data 1000 in
  timeouts st = [p]
  ∧ timeouts (stopSimulation st) = [p]
  ∧ currentStepIndex (stepTimeout p (stopSimulation st) (Sample.constant (1 # 2))).1 = 1.
Proof.
  intros st p. split; [reflexivity|].
  pose proof (stop_does_not_cancel_running_step p st (Sample.constant (1 # 2))
                ltac:(vm_compute; eexists; reflexivity)) as [Hto [Hidx _]].
  split; [exact Hto | exact Hidx].
Defined.

(** X7. Play restarts the run only when it is over. With the index at or
    past the end, [startSimulation] is [stopSimulation] followed by
    [startSimulation]; with steps still to go, Play after Pause resumes:
    only [isPlaying] changes, every record and the index stay. *)
Theorem play_restarts_only_at_the_end (st : State) :
  (Z.of_nat (length (executionSteps st)) ≤ currentStepIndex st →
   startSimulation st = startSimulation (stopSimulation st))
  ∧ (currentStepIndex st < Z.of_nat (length (executionSteps st)) →
     startSimulation (pauseSimulation st) = with_playing true st).
Proof.
  split; intros Hidx; unfold startSimulation.
  - rewrite bool_decide_eq_true_2 by done.
    unfold stopSimulation, with_steps, with_index, with_playing. cbn.
    case_bool_decide as Hlen; [|done].
    rewrite length_map in Hlen.
    by destruct (executionSteps st); [|cbn in Hlen; lia].
  - cbn. by rewrite bool_decide_eq_false_2 by lia.
Qed.

Lemma play_restarts_only_at_the_end_witness :
  let finished :=
    state (fullRun Sample.line_nodes Sample.line_edges Sample.data
             (Sample.constant (1 # 2))).1 in
  currentStepIndex finished = 3
  ∧ startSimulation finished = startSimulation (stopSimulation finished).
Proof.
  intros finished. split; [reflexivity|].
  apply (proj1 (play_restarts_only_at_the_end finished)). vm_compute. discriminate.
Defined.

(** *** Full runs *)


Lemma sealed_counts (steps : list ExecutionStep) :
  Forall (λ step, status step = completed ∨ status step = failed) steps →
  (length (filter (λ step, status step = completed) steps)
   + length (filter (λ step, status step = failed) steps) = length steps)%nat.
Proof.
  induction 1 as [|step steps Hstep _ IH]; [done|].
  rewrite !filter_cons. destruct Hstep as [Hs | Hs]; rewrite Hs.
  - rewrite decide_True, decide_False by done. cbn. lia.
  - rewrite decide_False, decide_True by done. cbn. lia.
Qed.

(** X8. After a full run the two counters of the control panel add up to
    the number of nodes: every step was sealed, completed or failed. *)
Theorem counters_add_up_after_full_run
  (nodes : list Node) (edges : list Edge) (data : SimulationData) (w : World) :
  let st := state (fullRun nodes edges data w).1 in
  (completedSteps st + failedSteps st = length nodes)%nat.
Proof.
  intros st. unfold completedSteps, failedSteps.
  rewrite sealed_counts.
  - apply (visited_length nodes (start_state nodes data) (length nodes)).
    apply fullRun_visited.
  - apply Forall_forall. intros step Hstep. by apply (fullRun_sealed nodes edges data w).
Qed.


(** *** Durations *)

Lemma pow2_power (e : Z) : (pow2 e == inject_Z 2 ^ e)%Q.
Proof.
  unfold pow2. destruct (Z.leb_spec 0 e) as [He|He].
  - by apply Zpower_Qpower.
  - replace e with (- - e) at 2 by lia. rewrite Qpower_opp.
    rewrite <- (Zpower_Qpower 2 (- e)) by lia.
    assert (0 < 2 ^ (- e)) as Hpos by (apply Z.pow_pos_nonneg; lia).
    destruct (2 ^ (- e)) as [|p|p]; try lia. reflexivity.
Qed.

Lemma pow2_pos (e : Z) : (0 < pow2 e)%Q.
Proof. rewrite pow2_power. by apply Qpower_0_lt. Qed.

Lemma pow2_plus (a b : Z) : (pow2 (a + b) == pow2 a * pow2 b)%Q.
Proof. rewrite !pow2_power. by apply Qpower_plus. Qed.

(** [pow2 (binade x) ≤ x] for a positive [x]. *)
Lemma binade_le (x : Q) : (0 < x)%Q → (pow2 (binade x) <= x)%Q.
Proof.
  intros Hx. unfold binade.
  destruct (Qle_bool _ x) eqn:Htest; [by apply Qle_bool_iff|].
  destruct x as [num den]. cbn [Qnum Qden].
  assert (0 < num) as Hnum.
  { unfold Qlt in Hx. simpl in Hx. lia. }
  destruct (Z.log2_spec num Hnum) as [Hlo _].
  destruct (Z.log2_spec (Z.pos den) (Pos2Z.is_pos den)) as [_ Hhi].
  pose proof (Z.log2_nonneg num) as Hn0.
  pose proof (Z.log2_nonneg (Z.pos den)) as Hd0.
  set (ln := Z.log2 num) in *. set (ld := Z.log2 (Z.pos den)) in *.
  rewrite (Qmake_Qdiv num den).
  apply Qle_shift_div_l; [done|].
  apply Qle_trans with (pow2 (ln - ld - 1) * pow2 (ld + 1))%Q.
  - apply Qmult_le_l; [apply pow2_pos|].
    unfold pow2 at 1. destruct (Z.leb_spec 0 (ld + 1)); [|lia].
    rewrite <- Zle_Qle. lia.
  - rewrite <- pow2_plus. replace (ln - ld - 1 + (ld + 1)) with ln by lia.
    unfold pow2. destruct (Z.leb_spec 0 ln); [|lia]. by rewrite <- Zle_Qle.
Qed.

(** The nearest integer is at most half a unit above. *)
Lemma round_half_even_le (y : Q) : (inject_Z (round_half_even y) <= y + (1 # 2))%Q.
Proof.
  unfold round_half_even.
  pose proof (Qfloor_le y) as Hfloor.
  destruct (Qcompare_spec (y - inject_Z (Qfloor y)) (1 # 2)) as [Heq|Hlt|Hgt].
  - assert (inject_Z (Qfloor y + 1) <= y + (1 # 2))%Q.
    { rewrite inject_Z_plus. change (inject_Z 1) with 1%Q. lra. }
    destruct (Z.even (Qfloor y)); [lra | done].
  - lra.
  - rewrite inject_Z_plus. change (inject_Z 1) with 1%Q. lra.
Qed.

Lemma round_half_even_nonneg (y : Q) : (0 <= y)%Q → 0 ≤ round_half_even y.
Proof.
  intros Hy. assert (0 ≤ Qfloor y) as Hfloor.
  { change 0 with (Qfloor 0). by apply Qfloor_resp_le. }
  unfold round_half_even. repeat case_match; lia.
Qed.


Lemma nearest_nonneg (x : Q) : (0 <= x)%Q → (0 <= nearest x)%Q.
Proof.
  intros Hx. unfold nearest.
  set (ulp := pow2 _). pose proof (pow2_pos (Z.max (binade x - 52) (-1074))) as Hulp.
  fold ulp in Hulp.
  apply Qmult_le_0_compat; [|lra].
  change 0%Q with (inject_Z 0). rewrite <- Zle_Qle.
  apply round_half_even_nonneg. apply Qle_shift_div_l; [done | lra].
Qed.

(** Rounding a positive number moves it up by at most [2^-53] of itself,
    or by half the smallest positive double. *)
Lemma nearest_le (x : Q) :
  (0 < x)%Q → (nearest x <= x + (x * pow2 (-53) + pow2 (-1075)))%Q.
Proof.
  intros Hx. unfold nearest.
  set (e := Z.max (binade x - 52) (-1074)).
  pose proof (pow2_pos e) as Hulp.
  assert (pow2 e <= x * pow2 (-52) + pow2 (-1074))%Q as Hsize.
  { pose proof (binade_le x Hx) as Hbinade.
    pose proof (pow2_pos (-52)) as H52. pose proof (pow2_pos (-1074)) as H1074.
    assert (0 <= x * pow2 (-52))%Q by (apply Qmult_le_0_compat; lra).
    unfold e. destruct (Z.max_spec (binade x - 52) (-1074)) as [[_ ->]|[_ ->]]; [lra|].
    replace (binade x - 52) with (binade x + -52) by lia. rewrite pow2_plus.
    assert (pow2 (binade x) * pow2 (-52) <= x * pow2 (-52))%Q
      by (apply Qmult_le_compat_r; lra).
    lra. }
  assert (inject_Z (round_half_even (x / pow2 e)) * pow2 e
          <= (x / pow2 e + (1 # 2)) * pow2 e)%Q as Hround.
  { apply Qmult_le_compat_r; [apply round_half_even_le | lra]. }
  assert ((x / pow2 e + (1 # 2)) * pow2 e == x + (1 # 2) * pow2 e)%Q as Hback.
  { field. lra. }
  assert (pow2 (-52) == 2 * pow2 (-53))%Q as Hhalf1 by reflexivity.
  assert (pow2 (-1074) == 2 * pow2 (-1075))%Q as Hhalf2 by reflexivity.
  rewrite Hback in Hround. rewrite Hhalf1, Hhalf2 in Hsize. lra.
Qed.

Lemma double_nonneg (x : Q) : (0 <= x)%Q → (0 <= double x)%Q.
Proof.
  intros Hx. unfold double. destruct (Qnum x) eqn:Hnum; [done | by apply nearest_nonneg|].
  unfold Qle in Hx. simpl in Hx. lia.
Qed.

(** A product with a number that is at most the largest double below 1
    stays below the other factor, also after rounding. *)
Lemma double_below (x k : Q) :
  (0 <= x)%Q → (1 <= k)%Q → (x <= k * (1 - pow2 (-53)))%Q → (double x < k)%Q.
Proof.
  intros Hx Hk Hmax. unfold double. destruct (Qnum x) eqn:Hnum.
  - lra.
  - assert (0 < x)%Q as Hpos by (unfold Qlt; simpl; lia).
    pose proof (nearest_le x Hpos) as Hnear.
    pose proof (pow2_pos (-53)) as H53.
    assert (pow2 (-1075) < pow2 (-53) * pow2 (-53))%Q as Hsmall by reflexivity.
    assert (x * (1 + pow2 (-53)) <= k * (1 - pow2 (-53)) * (1 + pow2 (-53)))%Q as Hscaled.
    { apply Qmult_le_compat_r; lra. }
    assert (pow2 (-53) * pow2 (-53) <= k * (pow2 (-53) * pow2 (-53)))%Q as Hk2.
    { rewrite <- (Qmult_1_l (pow2 (-53) * pow2 (-53))) at 1.
      apply Qmult_le_compat_r; [done|]. apply Qmult_le_0_compat; lra. }
    set (a := pow2 (-53)) in *. set (c := pow2 (-1075)) in *.
    set (aa := (a * a)%Q) in *.
    assert (k * (1 - a) * (1 + a) == k - k * aa)%Q as Hsq by (unfold aa; ring).
    rewrite Hsq in Hscaled. lra.
  - unfold Qle in Hx. simpl in Hx. lia.
Qed.

(** [Math.floor(r * k) + c] for a draw [r] of [Math.random()]: a double in
    [0, 1) is at most [1 - 2^-53]. *)
Lemma floor_scaled_bounds (r : Q) (k c : Z) :
  (0 <= r)%Q → (r <= 1 - pow2 (-53))%Q → 0 < k →
  c ≤ floor_scaled r k c < c + k.
Proof.
  intros Hlo Hhi Hk. unfold floor_scaled, times.
  assert (1 <= inject_Z k)%Q as Hk1.
  { change 1%Q with (inject_Z 1). rewrite <- Zle_Qle. lia. }
  assert (0 <= r * inject_Z k)%Q as Hx by (apply Qmult_le_0_compat; lra).
  assert (r * inject_Z k <= inject_Z k * (1 - pow2 (-53)))%Q as Hmax.
  { rewrite (Qmult_comm r). apply Qmult_le_l; lra. }
  pose proof (double_nonneg _ Hx) as Hdouble_lo.
  pose proof (double_below _ _ Hx Hk1 Hmax) as Hdouble_hi.
  assert (0 ≤ Qfloor (double (r * inject_Z k))) as Hfloor_lo.
  { change 0 with (Qfloor 0). by apply Qfloor_resp_le. }
  assert (Qfloor (double (r * inject_Z k)) < k) as Hfloor_hi.
  { rewrite Zlt_Qlt. eapply Qle_lt_trans; [apply Qfloor_le | done]. }
  lia.
Qed.

(** On the quotients [p / 10007] for [p] from 0 to 499, [double] is the
    machine's division, [times] by 2000 the machine's product, and
    [floor_scaled] the floor of the machine's product plus the offset. *)
Lemma double_is_the_machine_rounding :
  forallb (λ p,
    let r := (float_of p / float_of 10007)%float in
    denotes r (double (p # 10007))
    && denotes (r * float_of 2000)%float (times (double (p # 10007)) 2000)
    && bool_decide (Some (floor_scaled (double (p # 10007)) 1000 500)
                    = (λ q, Qfloor q + 500) <$> of_float (r * float_of 1000)%float))
    (seqZ 0 500) = true.
Proof. vm_compute. reflexivity. Qed.

(** The product is rounded before the floor is taken: of the double nearest
    to 0.0045, times 2000, the floor is 9, and of their exact product 8. *)
Lemma floor_scaled_rounds_the_product :
  floor_scaled (double (45 # 10000)) 2000 500 = 509
  ∧ Qfloor (double (45 # 10000) * 2000) + 500 = 508.
Proof. by vm_compute. Qed.

(** X10. [Math.random()] returns a double in [0, 1), that is a number from 0
    to [1 - 2^-53]. With such a draw the duration recorded for a sealed step,
    [Math.floor(Math.random() * 2000) + 500] with the product rounded to the
    nearest double, lies between 500 and 2499 milliseconds. *)
Theorem sealed_duration_in_range (p : Pending) (st : State) (w : World) :
  is_Some (at_index (executionSteps st) (p_index p)) →
  (0 <= random_src w (S (random_calls w)))%Q →
  (random_src w (S (random_calls w)) <= 1 - pow2 (-53))%Q →
  ∃ sealed d,
    at_index (executionSteps (stepTimeout p st w).1) (p_index p) = Some sealed
    ∧ duration sealed = Some d
    ∧ 500 ≤ d ≤ 2499.
Proof.
  intros [step Hat] Hlo Hhi.
  destruct (stepTimeout_sealed p st w step Hat) as (result & now & ->).
  state_cbn. rewrite at_index_map_at, Hat. cbn.
  eexists _, _. split; [done|]. split; [done|].
  pose proof (floor_scaled_bounds _ 2000 500 Hlo Hhi). lia.
Qed.

Lemma sealed_duration_in_range_witness :
  let st := (runOps Sample.line_nodes [Play; AutoPlay]
               (start_state Sample.line_nodes Sample.data)
               (Sample.constant (1 # 2))).1 in
  let p := mkPending 0 (Some (Sample.node "start-1" "start")) Sample.data 1000 in
  ∃ sealed d,
    at_index (executionSteps (stepTimeout p st (Sample.constant (1 # 2))).1) 0
    = Some sealed
    ∧ duration sealed = Some d
    ∧ 500 ≤ d ≤ 2499.
Proof.
  intros st p.
  refine (sealed_duration_in_range p st (Sample.constant (1 # 2)) _ _ _).
  - vm_compute. eexists. reflexivity.
  - vm_compute. discriminate.
  - vm_compute. discriminate.
Defined.

End SimExtras.


(** ** More facts about the builder *)

Module BuilderExtras.

Import Builder.

(** *** The undo history *)

Lemma saveToHistory_index closure base :
  historyIndex (saveToHistory closure base)
  = length (take (S (historyIndex closure)) (history closure))
  ∧ history (saveToHistory closure base)
    = take (S (historyIndex closure)) (history closure)
        ++ [mkSnapshot (nodes closure) (edges closure)].
Proof. cbn. rewrite length_app. cbn. split; [lia | done]. Qed.

Lemma addNode_is_a_save nodeType position st w :
  ∃ node,
    (addNode nodeType position st w).1
    = saveToHistory st (with_graph (nodes st ++ [node]) (edges st) st)
    ∧ node_id node = nodeType +:+ "-" +:+ pretty (clock_src w (clock_calls w))
    ∧ node_type node = Some nodeType
    ∧ node_data node = getDefaultNodeData nodeType.
Proof.
  unfold addNode. cbv [bind ret Date_now Math_random].
  destruct position as [pos|]; cbn [fst]; by eexists.
Qed.

Lemma in_range_saveToHistory closure base :
  (historyIndex (saveToHistory closure base)
   < length (history (saveToHistory closure base)))%nat.
Proof.
  destruct (saveToHistory_index closure base) as [-> ->].
  rewrite length_app. cbn. lia.
Qed.

Lemma in_range_act flow a st w :
  (historyIndex st < length (history st))%nat →
  (historyIndex (act flow a st w).1 < length (history (act flow a st w).1))%nat.
Proof.
  intros Hin. destruct a; cbn [act].
  - destruct (addNode_is_a_save nodeType position st w) as (node & -> & _).
    apply in_range_saveToHistory.
  - apply in_range_saveToHistory.
  - unfold undo. case_bool_decide; [|done].
    destruct (history st !! (historyIndex st - 1)%nat); cbn; [lia | done].
  - unfold redo. case_bool_decide; [|done].
    destruct (history st !! (historyIndex st + 1)%nat); cbn; [lia | done].
  - unfold handleSave, bind. by destruct (buildFlowData _ _ _ _).
  - unfold handlePublish, bind. by destruct (buildFlowData _ _ _ _).
  - unfold handleTest, bind. by destruct (buildFlowData _ _ _ _).
  - done.
  - done.
  - done.
Qed.

Lemma in_range_actAll flow actions st w :
  (historyIndex st < length (history st))%nat →
  (historyIndex (actAll flow actions st w).1
   < length (history (actAll flow actions st w).1))%nat.
Proof.
  revert st w. induction actions as [|a actions IH]; intros st w Hin; [done|].
  cbn. unfold bind. pose proof (in_range_act flow a st w Hin).
  destruct (act flow a st w) as [st' w']. by apply IH.
Qed.

(** X11. Whatever the user did in the editor (adding and deleting nodes,
    undo, redo, save, publish, test, selecting, editing properties), the
    history index points at an entry of the history, and neither [undo] nor
    [redo] throws. *)
Theorem history_index_stays_in_range
  (flow : option FlowData) (actions : list Action) (w : World) :
  let st := (actAll flow actions (initial flow) w).1 in
  (historyIndex st < length (history st))%nat
  ∧ (∃ undone, undo st = Done undone)
  ∧ (∃ redone, redo st = Done redone).
Proof.
  intros st.
  assert (historyIndex st < length (history st))%nat as Hin.
  { apply in_range_actAll. cbn. lia. }
  split; [done|]. split.
  - unfold undo. case_bool_decide; [|by eexists].
    destruct (lookup_lt_is_Some_2 (history st) (historyIndex st - 1)%nat) as [s ->];
      [lia | by eexists].
  - unfold redo. case_bool_decide; [|by eexists].
    destruct (lookup_lt_is_Some_2 (history st) (historyIndex st + 1)%nat) as [s ->];
      [lia | by eexists].
Qed.

(** X12. An edit discards the redo branch and records the graph it
    started from: after [deleteNode] or [addNode] the history is the old
    history up to the old index followed by one new entry, that entry is
    the graph as it was before the edit, the index points at it, and [redo]
    does nothing. *)
Theorem edit_saves_the_graph_before_it
  (nodeId nodeType : string) (position : option (Q * Q)) (st : Editor) (w : World) :
  ∀ st', st' = deleteNode nodeId st ∨ st' = (addNode nodeType position st w).1 →
    history st' = take (S (historyIndex st)) (history st)
                    ++ [mkSnapshot (nodes st) (edges st)]
    ∧ history st' !! historyIndex st' = Some (mkSnapshot (nodes st) (edges st))
    ∧ redo st' = Done st'
    ∧ isDirty st' = true.
Proof.
  assert (∀ base,
            let st' := saveToHistory st base in
            history st' = take (S (historyIndex st)) (history st)
                            ++ [mkSnapshot (nodes st) (edges st)]
            ∧ history st' !! historyIndex st' = Some (mkSnapshot (nodes st) (edges st))
            ∧ redo st' = Done st'
            ∧ isDirty st' = true) as Hsave.
  { intros base st'. destruct (saveToHistory_index st base) as [Hidx Hhist].
    fold st' in Hidx, Hhist. split; [done|]. split; [|split; [|done]].
    - rewrite Hhist, Hidx. by apply list_lookup_middle.
    - unfold redo. rewrite Hhist, Hidx, length_app. cbn.
      by rewrite bool_decide_eq_false_2 by lia. }
  intros st' [-> | ->].
  - apply Hsave.
  - destruct (addNode_is_a_save nodeType position st w) as (node & -> & _).
    apply Hsave.
Qed.

Lemma edit_saves_the_graph_before_it_witness :
  let st := initial None in
  let st' := (addNode "end" None st (Sample.constant (1 # 2))).1 in
  history st' = [mkSnapshot initialNodes []; mkSnapshot initialNodes []]
  ∧ history st' !! historyIndex st' = Some (mkSnapshot initialNodes [])
  ∧ redo st' = Done st'
  ∧ isDirty st' = true.
Proof.
  intros st st'.
  exact (edit_saves_the_graph_before_it "" "end" None st (Sample.constant (1 # 2))
           st' (or_intror eq_refl)).
Defined.

(** X13. The round trip over the history list: when the history index
    [i] is above 0 and in range, [undo] followed by [redo] shows the
    snapshot stored at [i], with the index back at [i] and the history list
    as it was. *)
Theorem undo_then_redo_shows_the_snapshot (st : Editor) :
  (0 < historyIndex st)%nat →
  (historyIndex st < length (history st))%nat →
  ∃ current,
    history st !! historyIndex st = Some current
    ∧ redo (settle st (undo st))
      = Done (with_historyIndex (historyIndex st)
                (with_graph (snap_nodes current) (snap_edges current) st)).
Proof.
  intros Hpos Hin.
  destruct (lookup_lt_is_Some_2 (history st) (historyIndex st)) as [current Hcur];
    [done|].
  destruct (lookup_lt_is_Some_2 (history st) (historyIndex st - 1)%nat)
    as [prevState Hprev]; [lia|].
  exists current. split; [done|].
  unfold undo. rewrite bool_decide_eq_true_2, Hprev by done. cbn [settle].
  unfold redo. cbn.
  rewrite bool_decide_eq_true_2 by lia.
  replace (historyIndex st - 1 + 1)%nat with (historyIndex st) by lia.
  by rewrite Hcur.
Qed.

Lemma undo_then_redo_shows_the_snapshot_witness :
  let st := (addNode "end" None (initial None) (Sample.constant (1 # 2))).1 in
  ∃ current,
    history st !! historyIndex st = Some current
    ∧ redo (settle st (undo st))
      = Done (with_historyIndex (historyIndex st)
                (with_graph (snap_nodes current) (snap_edges current) st)).
Proof.
  intros st. refine (undo_then_redo_shows_the_snapshot st _ _); vm_compute; lia.
Defined.

(** *** Adding and deleting nodes *)

Lemma filter_all {A} (P : A → Prop) `{!∀ x, Decision (P x)} (l : list A) :
  Forall P l → filter P l = l.
Proof.
  induction 1 as [|x l Hx _ IH]; [done|].
  by rewrite filter_cons, decide_True, IH.
Qed.

(** X14. Deleting an id that no node has and no edge mentions changes
    neither the nodes nor the edges, and still clears the selection, adds a
    history entry and marks the flow unsaved. *)
Theorem deleteNode_of_absent_id (nodeId : string) (st : Editor) :
  nodeId ∉ node_id <$> nodes st →
  Forall (λ edge, edge_source edge ≠ nodeId ∧ edge_target edge ≠ nodeId) (edges st) →
  let st' := deleteNode nodeId st in
  nodes st' = nodes st
  ∧ edges st' = edges st
  ∧ selectedNode st' = None
  ∧ length (history st') = S (length (take (S (historyIndex st)) (history st)))
  ∧ isDirty st' = true.
Proof.
  intros Habsent Hedges. cbn. repeat split.
  - apply filter_all, Forall_forall. intros node Hnode Heq.
    apply Habsent, list_elem_of_fmap. by exists node.
  - by apply filter_all.
  - rewrite length_app. cbn. lia.
Qed.

Lemma deleteNode_of_absent_id_witness :
  let st := with_graph Sample.line_nodes Sample.line_edges (initial None) in
  let st' := deleteNode "payment-9" st in
  nodes st' = Sample.line_nodes
  ∧ edges st' = Sample.line_edges
  ∧ selectedNode st' = None
  ∧ length (history st') = 2%nat
  ∧ isDirty st' = true.
Proof.
  intros st.
  refine (deleteNode_of_absent_id "payment-9" st _ _).
  - apply (bool_decide_unpack _). vm_compute. exact I.
  - apply (bool_decide_unpack _). vm_compute. exact I.
Defined.

(** X15. Adding a node and then deleting it gives back the nodes and the
    edges, provided the id given to the new node ([type-Date.now()]) was
    not in use and no edge mentioned it. *)
Theorem delete_after_add_restores_graph
  (nodeType : string) (position : option (Q * Q)) (st : Editor) (w : World) :
  let id := nodeType +:+ "-" +:+ pretty (clock_src w (clock_calls w)) in
  id ∉ node_id <$> nodes st →
  Forall (λ edge, edge_source edge ≠ id ∧ edge_target edge ≠ id) (edges st) →
  let added := (addNode nodeType position st w).1 in
  nodes added ≠ nodes st
  ∧ nodes (deleteNode id added) = nodes st
  ∧ edges (deleteNode id added) = edges st.
Proof.
  intros id Hfresh Hedges added.
  destruct (addNode_is_a_save nodeType position st w) as (node & Hadded & Hid & _).
  subst added. rewrite Hadded. cbn. fold id in Hid. repeat split.
  - intros Heq. apply (f_equal length) in Heq. rewrite length_app in Heq.
    cbn in Heq. lia.
  - rewrite filter_app, filter_cons, decide_False, filter_nil, app_nil_r
      by (intros Hne; by apply Hne).
    apply filter_all, Forall_forall. intros n Hn Heq.
    apply Hfresh, list_elem_of_fmap. exists n. by rewrite Heq.
  - by apply filter_all.
Qed.

Lemma delete_after_add_restores_graph_witness :
  let st := initial None in
  let added := (addNode "end" None st (Sample.constant (1 # 2))).1 in
  nodes added ≠ nodes st
  ∧ nodes (deleteNode "end-0" added) = initialNodes
  ∧ edges (deleteNode "end-0" added) = [].
Proof.
  intros st.
  refine (delete_after_add_restores_graph "end" None st (Sample.constant (1 # 2)) _ _).
  - apply (bool_decide_unpack _). vm_compute. exact I.
  - constructor.
Defined.

(** *** Saving, publishing, testing *)

(** X16. Saving a flow that was opened with a non-empty id and a stored
    creation time hands [onSave] a flow with that id and that creation time,
    the editor's current status, nodes and edges; the editor keeps
    everything but [isDirty], which is cleared. *)
Theorem handleSave_keeps_identity
  (f : FlowData) (created : string) (st : Editor) (w : World) :
  flow_id f ≠ "" →
  createdAt (flow_metadata f) = JStr created → created ≠ "" →
  let saved := (handleSave (Some f) st w).1 in
  flow_id (saved.1) = flow_id f
  ∧ createdAt (flow_metadata (saved.1)) = JStr created
  ∧ flow_status (saved.1) = status (flowProperties st)
  ∧ flow_nodes (saved.1) = nodes st
  ∧ flow_edges (saved.1) = edges st
  ∧ saved.2 = mkEditor (nodes st) (edges st) (selectedNode st) (activeTab st)
                false (isSimulating st) (flowProperties st)
                (history st) (historyIndex st).
Proof.
  intros Hid Hcreated Hne. unfold handleSave, buildFlowData.
  cbv [bind ret Date_now]. cbn [fmap option_fmap option_map or_else].
  rewrite decide_False by done. rewrite Hcreated.
  destruct created as [|a created']; [done|]. cbn.
  by repeat split.
Qed.

Lemma handleSave_keeps_identity_witness :
  let f := mkFlow "flow-42" "Orders" "" "kirana" "1.0.0" draft initialNodes []
             (mkMeta (JStr "2024-01-01T00:00:00.000Z") (JStr "2024-01-02T00:00:00.000Z")
                     "current-user" []) in
  let saved := (handleSave (Some f) (initial (Some f)) (Sample.constant 0)).1 in
  flow_id (saved.1) = "flow-42"
  ∧ createdAt (flow_metadata (saved.1)) = JStr "2024-01-01T00:00:00.000Z"
  ∧ flow_status (saved.1) = draft.
Proof.
  intros f.
  pose proof (handleSave_keeps_identity f "2024-01-01T00:00:00.000Z"
                (initial (Some f)) (Sample.constant 0)
                ltac:(discriminate) eq_refl ltac:(discriminate))
    as (Hid & Hcreated & Hstatus & _).
  exact (conj Hid (conj Hcreated Hstatus)).
Defined.

(** X17. Which handlers touch what. Save, Publish, Test, a click on a node
    or on the pane and an edit of the properties leave the nodes, the edges
    and the undo history as they are; and the flow status changes only
    through Publish or through the properties form. *)
Theorem actions_frame (flow : option FlowData) (a : Action) (st : Editor) (w : World) :
  let st' := (act flow a st w).1 in
  (match a with
   | AddNode _ _ | DeleteNode _ | Undo | Redo => True
   | _ => nodes st' = nodes st ∧ edges st' = edges st
          ∧ history st' = history st ∧ historyIndex st' = historyIndex st
   end)
  ∧ (match a with
     | Publish | SetProperties _ => True
     | _ => status (flowProperties st') = status (flowProperties st)
     end).
Proof.
  destruct a; cbn [act].
  - destruct (addNode_is_a_save nodeType position st w) as (node & -> & _). done.
  - done.
  - split; [done|]. unfold undo. case_bool_decide; [|done].
    by destruct (history st !! _).
  - split; [done|]. unfold redo. case_bool_decide; [|done].
    by destruct (history st !! _).
  - unfold handleSave, bind. destruct (buildFlowData _ _ _ _). cbn.
    by destruct (flowProperties st).
  - unfold handlePublish, bind. by destruct (buildFlowData _ _ _ _).
  - unfold handleTest, bind. by destruct (buildFlowData _ _ _ _).
  - done.
  - done.
  - done.
Qed.

(** *** The keyboard *)

(** X22. The keyboard. In read-only mode no key does anything, whatever
    the key. Otherwise the Delete key, with a node selected, does what
    [deleteNode] of that node does, which clears the selection; with none
    selected it does nothing; so a second press right after the first never
    changes anything. *)
Theorem delete_key_acts_once
  (flow : option FlowData) (event : KeyEvent) (st : Editor) (w w' : World) :
  handleKeyDown true flow event st w = (None, st, w)
  ∧ (key event = "Delete" →
     let once := (handleKeyDown false flow event st w).1.2 in
     (selectedNode st = None → once = st)
     ∧ (∀ node, selectedNode st = Some node → once = deleteNode (node_id node) st)
     ∧ (handleKeyDown false flow event once w').1.2 = once).
Proof.
  split; [done|]. intros Hkey.
  assert (∀ st0 w0,
            (handleKeyDown false flow event st0 w0).1.2
            = match selectedNode st0 with
              | Some node => deleteNode (node_id node) st0
              | None => st0
              end) as Hpress.
  { intros st0 w0. unfold handleKeyDown. rewrite Hkey. cbv [bind ret].
    destruct (ctrlKey event || metaKey event);
      repeat case_decide; try done; by destruct (selectedNode st0). }
  cbn zeta. rewrite !Hpress. repeat split.
  - by intros ->.
  - by intros node ->.
  - destruct (selectedNode st) eqn:Hsel; [done | by rewrite Hsel].
Qed.

Lemma delete_key_acts_once_witness :
  let event := mkKey false false false "Delete" in
  let saveKey := mkKey true false false "s" in
  let st := onNodeClick (Sample.node "action-1" "action")
              (with_graph Sample.line_nodes Sample.line_edges (initial None)) in
  let once := (handleKeyDown false None event st (Sample.constant 0)).1.2 in
  handleKeyDown true None saveKey st (Sample.constant 0) = (None, st, Sample.constant 0)
  ∧ node_id <$> nodes once = ["start-1"; "end-1"]
  ∧ edges once = []
  ∧ (handleKeyDown false None event once (Sample.constant 0)).1.2 = once.
Proof.
  intros event saveKey st.
  pose proof (delete_key_acts_once None saveKey st (Sample.constant 0)
                (Sample.constant 0)) as [Hread _].
  pose proof (delete_key_acts_once None event st (Sample.constant 0) (Sample.constant 0))
    as [_ Hdelete].
  destruct (Hdelete eq_refl) as (_ & _ & Htwice).
  split; [exact Hread|]. split; [reflexivity|]. split; [reflexivity | exact Htwice].
Defined.

End BuilderExtras.


(** ** Facts about the properties form and the palette *)

Module FormExtras.

Import Builder Properties.

(** *** Tags *)

(** X18. [addTag] keeps the tags pairwise distinct and never adds an empty
    tag, whatever [trim] does and whether or not the form is read-only. *)
Theorem addTag_keeps_tags_distinct
  (trim : string → string) (readOnly : bool) (newTag : string)
  (properties : FlowProperties) :
  NoDup (tags properties) → "" ∉ tags properties →
  let after := (addTag trim readOnly newTag properties).1 in
  NoDup (tags after) ∧ "" ∉ tags after.
Proof.
  intros Hnodup Hempty. unfold addTag.
  destruct (bool_decide (trim newTag ≠ "")) eqn:Hne;
    destruct (bool_decide (trim newTag ∉ tags properties)) eqn:Hnew;
    cbn [andb fst]; try done.
  apply bool_decide_eq_true_1 in Hne, Hnew.
  destruct readOnly; cbn; [done|]. split.
  - apply NoDup_app. repeat split; [done | | apply NoDup_singleton].
    intros tag Hin Hin'. apply list_elem_of_singleton in Hin'. by subst tag.
  - intros Hin. apply elem_of_app in Hin as [Hin | Hin]; [done|].
    apply list_elem_of_singleton in Hin. by apply Hne.
Qed.

Lemma addTag_keeps_tags_distinct_witness :
  let properties := mkProps "Orders" "" "kirana" "1.0.0" draft ["upi"; "sms"] in
  let after := (addTag (λ s, s) false "sms" properties).1 in
  NoDup (tags after) ∧ "" ∉ tags after.
Proof.
  intros properties.
  refine (addTag_keeps_tags_distinct (λ s, s) false "sms" properties _ _).
  - apply (bool_decide_unpack _). vm_compute. exact I.
  - apply (bool_decide_unpack _). vm_compute. exact I.
Defined.

(** X19. Adding a tag and then removing it gives back the properties as
    they were: when the trimmed input is not empty and not yet a tag,
    [addTag] appends it and clears the input, and [removeTag] of that tag
    restores the former properties. *)
Theorem removeTag_undoes_addTag
  (trim : string → string) (newTag : string) (properties : FlowProperties) :
  trim newTag ≠ "" → trim newTag ∉ tags properties →
  let added := addTag trim false newTag properties in
  tags (added.1) = tags properties ++ [trim newTag]
  ∧ added.2 = ""
  ∧ removeTag false (trim newTag) (added.1) = properties.
Proof.
  intros Hne Hnew. unfold addTag.
  rewrite !bool_decide_eq_true_2 by done. cbn.
  split; [done|]. split; [done|].
  unfold removeTag. cbn.
  rewrite filter_app, filter_cons, decide_False, filter_nil, app_nil_r
    by (intros Hx; by apply Hx).
  rewrite BuilderExtras.filter_all; [by destruct properties|].
  apply Forall_forall. by intros tag Hin ->.
Qed.

Lemma removeTag_undoes_addTag_witness :
  let properties := mkProps "Orders" "" "kirana" "1.0.0" draft ["upi"] in
  let added := addTag (λ s, s) false "sms" properties in
  tags (added.1) = ["upi"; "sms"]
  ∧ added.2 = ""
  ∧ removeTag false "sms" (added.1) = properties.
Proof.
  intros properties.
  refine (removeTag_undoes_addTag (λ s, s) "sms" properties _ _).
  - discriminate.
  - apply (bool_decide_unpack _). vm_compute. exact I.
Defined.

(** X20. In read-only mode no call of [updateProperty], [addTag] or
    [removeTag] changes the properties; [addTag] nevertheless clears the
    input whenever it would have added the tag. *)
Theorem read_only_form_changes_nothing
  (trim : string → string) (u : Update) (tag newTag : string)
  (properties : FlowProperties) :
  updateProperty true u properties = properties
  ∧ removeTag true tag properties = properties
  ∧ (addTag trim true newTag properties).1 = properties
  ∧ (addTag trim true newTag properties).2
    = (if bool_decide (trim newTag ≠ "" ∧ trim newTag ∉ tags properties)
       then "" else newTag).
Proof.
  unfold addTag. repeat split; try done.
  - by destruct (_ && _).
  - repeat case_bool_decide; cbn; try done; intuition.
Qed.

(** *** The palette and the builder's node types *)

(** X21. Every entry of the palette whose id is one of the builder's eight
    node types is added with data of its own, and every other entry (12 of
    the 20) is added with the data [{ label: 'Unknown' }]. *)
Theorem palette_entries_without_default_data :
  Forall (λ entry,
            (Palette.id entry ∈ Palette.builderNodeTypes →
             getDefaultNodeData (Palette.id entry) ≠ JObj [("label", JStr "Unknown")])
            ∧ (Palette.id entry ∉ Palette.builderNodeTypes →
               getDefaultNodeData (Palette.id entry) = JObj [("label", JStr "Unknown")]))
         Palette.nodeTypes
  ∧ length (filter (λ entry, Palette.id entry ∉ Palette.builderNodeTypes)
                   Palette.nodeTypes) = 12%nat.
Proof.
  split; [|reflexivity].
  repeat (apply Forall_cons; split;
          [split;
           [intros Hin;
            first [ vm_compute; discriminate
                  | apply (bool_decide_pack _) in Hin; vm_compute in Hin;
                    destruct Hin ]
           |intros Hout;
            first [ reflexivity
                  | exfalso; apply Hout, (bool_decide_unpack _); vm_compute;
                    exact I ]]
          |]).
  constructor.
Qed.

End FormExtras.
